(** * jetson_tensorrt: the clustered non-maximum suppressor and the
    preprocessor's cache pair

    A shallow embedding of [ClusteredNonMaximumSuppression]
    (src/tensorrt/DIGITSDetector.cpp) and of [CUDAImagePreprocessor::swapIO]
    (src/tensorrt/CUDAImagePreprocessor.cpp), and the properties of them
    that the specification states.

    Conventions.
    - [size_t] values are [N]; multiplication, addition and subtraction
      wrap at 2^64 and the wrap is written out ([mul64], [add64], [sub64]).
    - [int] values are [Z]; loop counters are [nat], as every loop here
      counts upwards from 0 to a bound; where a counter would pass
      [INT_MAX] is told apart in [executeCall].
    - Allocations are taken to succeed, but for [rects.resize] in
      [executeCall].
    - [float] is IEEE 754 binary32, as [spec_float] with a 24 bit
      significand; sums, products and conversions round to nearest even.
    - Operations whose behaviour C++ leaves undefined (division by zero
      on [size_t], a float to [size_t] conversion whose truncated value
      does not fit) yield [None] in the option monad.
    - [float *] arguments are the memory they address, a function from
      element offsets to floats. *)

From Stdlib Require Import ZArith NArith Lia Bool.
From Stdlib Require Import Floats.SpecFloat.
From stdpp Require Import base option list gmap strings.
From Stdlib Require Import DecimalString.

Local Open Scope N_scope.

(** ** Machine arithmetic *)

Definition SIZE_MAX1 : N := 2 ^ 64.

Definition wrap64 (n : N) : N := n mod SIZE_MAX1.
Definition mul64 (a b : N) : N := wrap64 (a * b).
Definition add64 (a b : N) : N := wrap64 (a + b).
Definition sub64 (a b : N) : N := wrap64 (a + SIZE_MAX1 - wrap64 b).

(** [a / b] on [size_t]; dividing by zero is undefined. *)
Definition div64 (a b : N) : option N :=
  if b =? 0 then None else Some (a / b).

(** [(int) n] for a [size_t] n: the low 32 bits, read as two's complement. *)
Definition int_of_size_t (n : N) : Z :=
  let m := Z.of_N (n mod 2 ^ 32) in
  if (m <? 2 ^ 31)%Z then m else (m - 2 ^ 32)%Z.

(** ** binary32 *)

Definition float := spec_float.

Definition prec32 : Z := 24.
Definition emax32 : Z := 128.

Definition fadd : float -> float -> float := SFadd prec32 emax32.
Definition fmul : float -> float -> float := SFmul prec32 emax32.
Definition flt : float -> float -> bool := SFltb.
(** [a > b] *)
Definition fgt (a b : float) : bool := SFltb b a.

(** [(float) z] for an integer z. *)
Definition float_of_Z (z : Z) : float := binary_normalize prec32 emax32 z 0 false.
Definition float_of_size_t (n : N) : float := float_of_Z (Z.of_N n).
Definition float_of_nat (n : nat) : float := float_of_Z (Z.of_nat n).

(** The literal [0.0]. *)
Definition fzero : float := S754_zero false.

(** The magnitude of a finite float, truncated toward zero. *)
Definition trunc_mag (m : positive) (e : Z) : N :=
  match e with
  | Z0 => Npos m
  | Zpos p => Npos m * 2 ^ Npos p
  | Zneg p => Npos m / 2 ^ Npos p
  end.

(** [(size_t) f]: the fractional part is discarded; the conversion is
    defined only when the truncated value is a [size_t]. *)
Definition size_t_of_float (f : float) : option N :=
  match f with
  | S754_zero _ => Some 0
  | S754_finite s m e =>
      let t := trunc_mag m e in
      if t =? 0 then Some 0
      else if s then None
      else if t <? SIZE_MAX1 then Some t
      else None
  | S754_infinity _ | S754_nan => None
  end.

(** ** The suppressor's rectangles *)

(** [struct float6]: x, y, z, w are the left, top, right and bottom edges,
    v the coverage and u the class. *)
Record float6 := make_float6 {
  f6_x : float;
  f6_y : float;
  f6_z : float;
  f6_w : float;
  f6_v : float;
  f6_u : float
}.

Definition set_x (r : float6) (a : float) : float6 :=
  make_float6 a (f6_y r) (f6_z r) (f6_w r) (f6_v r) (f6_u r).
Definition set_y (r : float6) (a : float) : float6 :=
  make_float6 (f6_x r) a (f6_z r) (f6_w r) (f6_v r) (f6_u r).
Definition set_z (r : float6) (a : float) : float6 :=
  make_float6 (f6_x r) (f6_y r) a (f6_w r) (f6_v r) (f6_u r).
Definition set_w (r : float6) (a : float) : float6 :=
  make_float6 (f6_x r) (f6_y r) (f6_z r) a (f6_v r) (f6_u r).

Definition rectOverlap (r1 r2 : float6) : bool :=
  negb (fgt (f6_x r2) (f6_z r1) || flt (f6_z r2) (f6_x r1)
        || fgt (f6_y r2) (f6_w r1) || flt (f6_w r2) (f6_y r1)).

(** The four conditional assignments of [mergeRect]'s loop body, applied
    to [rects[r]] in the order of the source. *)
Definition expandRect (acc rect : float6) : float6 :=
  let acc := if flt (f6_x rect) (f6_x acc) then set_x acc (f6_x rect) else acc in
  let acc := if flt (f6_y rect) (f6_y acc) then set_y acc (f6_y rect) else acc in
  let acc := if fgt (f6_z rect) (f6_z acc) then set_z acc (f6_z rect) else acc in
  let acc := if fgt (f6_w rect) (f6_w acc) then set_w acc (f6_w rect) else acc in
  acc.

(** The [for] loop of [mergeRect] from index [r] on, over the part of the
    vector not yet scanned: the vector after the loop and the flag
    [intersects]. The first branch is the one that ends in [break]. *)
Fixpoint mergeRect_loop (rects : list float6) (rect : float6)
  : list float6 * bool :=
  match rects with
  | [] => ([], false)
  | r1 :: rest =>
      if rectOverlap r1 rect then (expandRect r1 rect :: rest, true)
      else let '(rest', intersects) := mergeRect_loop rest rect in
           (r1 :: rest', intersects)
  end.

Definition mergeRect (rects : list float6) (rect : float6) : list float6 :=
  let '(rects', intersects) := mergeRect_loop rects rect in
  if negb intersects then rects' ++ [rect] else rects'.

(** What the specification calls the union of the edges. *)
Definition fmin (a b : float) : float := if flt a b then a else b.
Definition fmax (a b : float) : float := if fgt a b then a else b.

Definition unionRect (acc rect : float6) : float6 :=
  make_float6 (fmin (f6_x rect) (f6_x acc)) (fmin (f6_y rect) (f6_y acc))
              (fmax (f6_z rect) (f6_z acc)) (fmax (f6_w rect) (f6_w acc))
              (f6_v acc) (f6_u acc).

(** ** The suppressor's geometry *)

(** The data members of [ClusteredNonMaximumSuppression]. The class is
    declared in DIGITSDetector.h; the dimensions are [size_t] as the
    setters' parameters are, the two image scales are [float] (the
    constructor assigns them [0.0]), and the cell sizes and the grid size
    are integers (it assigns them [0]). *)
Record ClusteredNonMaximumSuppression := mkCNMS {
  imageDimX : N;
  imageDimY : N;
  imageScaleX : float;
  imageScaleY : float;
  inputDimX : N;
  inputDimY : N;
  gridDimX : N;
  gridDimY : N;
  cellWidth : N;
  cellHeight : N;
  gridSize : N;
  imageReady : bool;
  inputReady : bool;
  gridReady : bool
}.

(** The constructor. *)
Definition CNMS_new : ClusteredNonMaximumSuppression :=
  {| imageDimX := 0; imageDimY := 0;
     imageScaleX := fzero; imageScaleY := fzero;
     inputDimX := 0; inputDimY := 0;
     gridDimX := 0; gridDimY := 0;
     cellWidth := 0; cellHeight := 0;
     gridSize := 0;
     imageReady := false; inputReady := false; gridReady := false |}.

Definition allReady (st : ClusteredNonMaximumSuppression) : bool :=
  imageReady st && inputReady st && gridReady st.

(** Four [size_t] divisions, in the order of the source; the two image
    scales are converted to [float] when they are stored. *)
Definition calculateScale (st : ClusteredNonMaximumSuppression)
  : option ClusteredNonMaximumSuppression :=
  sx ← div64 (inputDimX st) (imageDimX st);
  sy ← div64 (inputDimY st) (imageDimY st);
  cw ← div64 (inputDimX st) (gridDimX st);
  ch ← div64 (inputDimY st) (gridDimY st);
  Some {| imageDimX := imageDimX st; imageDimY := imageDimY st;
          imageScaleX := float_of_size_t sx;
          imageScaleY := float_of_size_t sy;
          inputDimX := inputDimX st; inputDimY := inputDimY st;
          gridDimX := gridDimX st; gridDimY := gridDimY st;
          cellWidth := cw; cellHeight := ch;
          gridSize := gridSize st;
          imageReady := imageReady st; inputReady := inputReady st;
          gridReady := gridReady st |}.

Definition setupImage (st : ClusteredNonMaximumSuppression) (dimX dimY : N)
  : option ClusteredNonMaximumSuppression :=
  let st := {| imageDimX := dimX; imageDimY := dimY;
               imageScaleX := imageScaleX st; imageScaleY := imageScaleY st;
               inputDimX := inputDimX st; inputDimY := inputDimY st;
               gridDimX := gridDimX st; gridDimY := gridDimY st;
               cellWidth := cellWidth st; cellHeight := cellHeight st;
               gridSize := gridSize st;
               imageReady := true; inputReady := inputReady st;
               gridReady := gridReady st |} in
  if allReady st then calculateScale st else Some st.

Definition setupInput (st : ClusteredNonMaximumSuppression) (dimX dimY : N)
  : option ClusteredNonMaximumSuppression :=
  let st := {| imageDimX := imageDimX st; imageDimY := imageDimY st;
               imageScaleX := imageScaleX st; imageScaleY := imageScaleY st;
               inputDimX := dimX; inputDimY := dimY;
               gridDimX := gridDimX st; gridDimY := gridDimY st;
               cellWidth := cellWidth st; cellHeight := cellHeight st;
               gridSize := gridSize st;
               imageReady := imageReady st; inputReady := true;
               gridReady := gridReady st |} in
  if allReady st then calculateScale st else Some st.

Definition setupGrid (st : ClusteredNonMaximumSuppression) (dimX dimY : N)
  : option ClusteredNonMaximumSuppression :=
  let st := {| imageDimX := imageDimX st; imageDimY := imageDimY st;
               imageScaleX := imageScaleX st; imageScaleY := imageScaleY st;
               inputDimX := inputDimX st; inputDimY := inputDimY st;
               gridDimX := dimX; gridDimY := dimY;
               cellWidth := cellWidth st; cellHeight := cellHeight st;
               gridSize := mul64 dimX dimY;
               imageReady := imageReady st; inputReady := inputReady st;
               gridReady := true |} in
  if allReady st then calculateScale st else Some st.

(** ** [execute] *)

(** A [for (int i = 0; i < n; i++)] loop over a state. *)
Definition for_upto {S : Type} (n : nat) (body : nat -> S -> S) (s : S) : S :=
  foldl (fun s i => body i s) s (seq 0 n).

(** The same loop when its body can be undefined. *)
Fixpoint for_each_M {S : Type} (l : list nat) (body : nat -> S -> option S)
  (s : S) : option S :=
  match l with
  | [] => Some s
  | i :: l' => s' ← body i s; for_each_M l' body s'
  end.

Section Execute.

Variable st : ClusteredNonMaximumSuppression.
(** The two output tensors of the network. *)
Variable coverage bboxes : N -> float.
Variable coverageThreshold : float.

(** [k * gridSize + y * gridDimX + x] *)
Definition gridOffset (k y x : nat) : N :=
  add64 (add64 (mul64 (N.of_nat k) (gridSize st))
               (mul64 (N.of_nat y) (gridDimX st)))
        (N.of_nat x).

(** The body of the innermost loop of the first loop nest. *)
Definition cellBody (c y x : nat) (rects : list (list float6))
  : list (list float6) :=
  let cvg := coverage (gridOffset c y x) in
  if fgt cvg coverageThreshold then
    let mx := float_of_size_t (mul64 (N.of_nat x) (cellWidth st)) in
    let my := float_of_size_t (mul64 (N.of_nat y) (cellHeight st)) in
    let x1 := fmul (fadd (bboxes (gridOffset 0 y x)) mx) (imageScaleX st) in
    let y1 := fmul (fadd (bboxes (gridOffset 1 y x)) my) (imageScaleY st) in
    let x2 := fmul (fadd (bboxes (gridOffset 2 y x)) mx) (imageScaleX st) in
    let y2 := fmul (fadd (bboxes (gridOffset 3 y x)) my) (imageScaleY st) in
    alter (fun v => mergeRect v (make_float6 x1 y1 x2 y2 cvg (float_of_nat c)))
          c rects
  else rects.

(** The first loop nest: [rects] after clustering. [rects] starts as
    [nbClasses] empty vectors; [reserve] changes no contents. That
    [rects.resize(nbClasses)] can throw and that the counters are [int]s
    is accounted for in [executeCall]. *)
Definition cluster (nbClasses : N) : list (list float6) :=
  for_upto (N.to_nat nbClasses) (fun c =>
    for_upto (N.to_nat (gridDimY st)) (fun y =>
      for_upto (N.to_nat (gridDimX st)) (fun x => cellBody c y x)))
    (replicate (N.to_nat nbClasses) []).

End Execute.

(** The arguments [execute] passes to the constructor of
    [RTClassifiedRegionOfInterest] (declared in RTCommon.h): class,
    confidence, x, y, width, height. *)
Record RTClassifiedRegionOfInterest := mkROI {
  roi_classID : Z;
  roi_confidence : float;
  roi_x : N;
  roi_y : N;
  roi_w : N;
  roi_h : N
}.

(** The body of the innermost loop of the second loop nest, up to the
    [push_back]. *)
Definition toRegion (r : float6) : option RTClassifiedRegionOfInterest :=
  classID ← size_t_of_float (f6_u r);
  x1 ← size_t_of_float (f6_x r);
  y1 ← size_t_of_float (f6_y r);
  x2 ← size_t_of_float (f6_z r);
  y2 ← size_t_of_float (f6_w r);
  Some (mkROI (int_of_size_t classID) (f6_v r) x1 y1 (sub64 x2 x1) (sub64 y2 y1)).

(** [for (b = 0; b < numBox && boxIndex < maxBoundingBoxes; b++)] over
    the boxes from [b] on; the state is [classRectangles] and
    [boxIndex]. *)
Fixpoint emitBoxes (maxBoundingBoxes : N) (boxes : list float6)
  (s : list RTClassifiedRegionOfInterest * nat)
  : option (list RTClassifiedRegionOfInterest * nat) :=
  match boxes with
  | [] => Some s
  | r :: rest =>
      if N.of_nat (snd s) <? maxBoundingBoxes then
        roi ← toRegion r;
        emitBoxes maxBoundingBoxes rest (fst s ++ [roi], S (snd s))
      else Some s
  end.

(** The second loop nest. *)
Definition emit (rects : list (list float6)) (nbClasses maxBoundingBoxes : N)
  : option (list RTClassifiedRegionOfInterest * nat) :=
  for_each_M (seq 0 (N.to_nat nbClasses))
    (fun c s => boxes ← rects !! c; emitBoxes maxBoundingBoxes boxes s)
    ([], 0%nat).

Definition execute (st : ClusteredNonMaximumSuppression)
  (coverage bboxes : N -> float) (nbClasses : N) (coverageThreshold : float)
  : option (list RTClassifiedRegionOfInterest) :=
  let rects := cluster st coverage bboxes coverageThreshold nbClasses in
  let maxBoundingBoxes := mul64 (gridSize st) nbClasses in
  s ← emit rects nbClasses maxBoundingBoxes;
  Some (fst s).

(** ** The grid as the specification describes it *)

(** The cells [(y, x)] of the grid in row-major order. *)
Definition cells (st : ClusteredNonMaximumSuppression) : list (nat * nat) :=
  flat_map (fun y => map (fun x => (y, x)) (seq 0 (N.to_nat (gridDimX st))))
           (seq 0 (N.to_nat (gridDimY st))).

(** [coverage[c][y][x] > threshold] *)
Definition aboveThreshold (st : ClusteredNonMaximumSuppression)
  (coverage : N -> float) (threshold : float) (c : nat) (cell : nat * nat)
  : bool :=
  fgt (coverage (gridOffset st c (fst cell) (snd cell))) threshold.

(** The candidate rectangle of a cell of class [c]. *)
Definition cellRect (st : ClusteredNonMaximumSuppression)
  (coverage bboxes : N -> float) (c : nat) (cell : nat * nat) : float6 :=
  let y := fst cell in
  let x := snd cell in
  let mx := float_of_size_t (mul64 (N.of_nat x) (cellWidth st)) in
  let my := float_of_size_t (mul64 (N.of_nat y) (cellHeight st)) in
  {| f6_x := fmul (fadd (bboxes (gridOffset st 0 y x)) mx) (imageScaleX st);
     f6_y := fmul (fadd (bboxes (gridOffset st 1 y x)) my) (imageScaleY st);
     f6_z := fmul (fadd (bboxes (gridOffset st 2 y x)) mx) (imageScaleX st);
     f6_w := fmul (fadd (bboxes (gridOffset st 3 y x)) my) (imageScaleY st);
     f6_v := coverage (gridOffset st c y x);
     f6_u := float_of_nat c |}.

(** The candidates of class [c], in the order the cells are visited. *)
Definition candidates (st : ClusteredNonMaximumSuppression)
  (coverage bboxes : N -> float) (threshold : float) (c : nat) : list float6 :=
  map (cellRect st coverage bboxes c)
      (List.filter (aboveThreshold st coverage threshold c) (cells st)).

(** The candidates that found no accumulated rectangle to merge into,
    and so were appended: the creators of the accumulated rectangles. *)
Fixpoint creators (acc : list float6) (cands : list float6) : list float6 :=
  match cands with
  | [] => []
  | r :: rest =>
      if existsb (fun a => rectOverlap a r) acc
      then creators (mergeRect acc r) rest
      else r :: creators (mergeRect acc r) rest
  end.

(** The accumulated rectangles after merging the candidates [cands], in
    order, into an empty vector. *)
Definition accumulate (cands : list float6) : list float6 :=
  foldl mergeRect [] cands.

(** The rectangles the second loop nest converts: those of the classes in
    ascending order, each class in vector order, up to the bound. *)
Definition emitted (st : ClusteredNonMaximumSuppression)
  (coverage bboxes : N -> float) (nbClasses : N) (threshold : float)
  : list float6 :=
  take (N.to_nat (mul64 (gridSize st) nbClasses))
       (concat (map (fun c => accumulate (candidates st coverage bboxes threshold c))
                    (seq 0 (N.to_nat nbClasses)))).

(** The creators of the rectangles of [emitted], in the same order. *)
Definition emittedCreators (st : ClusteredNonMaximumSuppression)
  (coverage bboxes : N -> float) (nbClasses : N) (threshold : float)
  : list float6 :=
  take (N.to_nat (mul64 (gridSize st) nbClasses))
       (concat (map (fun c => creators [] (candidates st coverage bboxes threshold c))
                    (seq 0 (N.to_nat nbClasses)))).

(** The confidence and the class of a rectangle. *)
Definition label (r : float6) : float * float := (f6_v r, f6_u r).

(** The scale factor in the specification's words: the quotient of two
    dimensions, not rounded to an integer, as the nearest float. *)
Definition exactQuotient (a b : N) : float :=
  SFdiv prec32 emax32 (float_of_size_t a) (float_of_size_t b).

(** A buffer holding the floats of [l], and [0.0] beyond them. *)
Definition buffer (l : list float) : N -> float :=
  fun i => nth (N.to_nat i) l fzero.

(** 0.1, 0.5 and 0.9 as binary32. *)
Definition f0_1 : float := S754_finite false 13421773 (-27).
Definition f0_5 : float := S754_finite false 8388608 (-24).
Definition f0_9 : float := S754_finite false 15099494 (-24).

(** ** The preprocessor's two caches *)

Section Preprocessor.

(** [CUDASizedMemCache] is declared in RTCommon.h; what a cache holds
    plays no part here. *)
Variable CUDASizedMemCache : Type.
(** What [new CUDASizedMemCache()] constructs. *)
Variable emptyCache : CUDASizedMemCache.

(** Addresses of cache objects. *)
Definition ptr := positive.

(** The data members of [CUDAImagePreprocessor]. *)
Record CUDAImagePreprocessor := mkPreprocessor {
  inputCache : ptr;
  outputCache : ptr
}.

(** The cache objects in memory, and the preprocessor. *)
Record world := mkWorld {
  heap : gmap ptr CUDASizedMemCache;
  this : CUDAImagePreprocessor
}.

(** [new CUDASizedMemCache()]: a cache at an address not yet in use. *)
Definition newCache (h : gmap ptr CUDASizedMemCache)
  : gmap ptr CUDASizedMemCache * ptr :=
  let p := fresh (dom h) in (<[p := emptyCache]> h, p).

(** The constructor. *)
Definition CUDAImagePreprocessor_new (h : gmap ptr CUDASizedMemCache) : world :=
  let '(h1, i) := newCache h in
  let '(h2, o) := newCache h1 in
  {| heap := h2; this := {| inputCache := i; outputCache := o |} |}.

Definition swapIO (w : world) : world :=
  let tmp := outputCache (this w) in
  let this1 := {| inputCache := inputCache (this w);
                  outputCache := inputCache (this w) |} in
  let this2 := {| inputCache := tmp; outputCache := outputCache this1 |} in
  {| heap := heap w; this := this2 |}.

End Preprocessor.

Arguments heap {_} _.
Arguments this {_} _.
Arguments swapIO {_} _.
Arguments mkWorld {_} _ _.

(** ** Sequences of setter calls *)

Inductive call :=
| SetupImage (dimX dimY : N)
| SetupInput (dimX dimY : N)
| SetupGrid (dimX dimY : N).

Definition isSetupGrid (k : call) : bool :=
  match k with SetupGrid _ _ => true | _ => false end.

Definition doCall (k : call) (st : ClusteredNonMaximumSuppression)
  : option ClusteredNonMaximumSuppression :=
  match k with
  | SetupImage a b => setupImage st a b
  | SetupInput a b => setupInput st a b
  | SetupGrid a b => setupGrid st a b
  end.

(** The calls of [ks] one after the other, from left to right. *)
Fixpoint run (ks : list call) (st : ClusteredNonMaximumSuppression)
  : option ClusteredNonMaximumSuppression :=
  match ks with
  | [] => Some st
  | k :: ks' => st' ← doCall k st; run ks' st'
  end.

(** The six orders in which the three setters can be called. *)
Definition orders (image input grid : call) : list (list call) :=
  [ [image; input; grid]; [image; grid; input];
    [input; image; grid]; [input; grid; image];
    [grid; image; input]; [grid; input; image] ].

(** The suppressor with the three readiness flags replaced. *)
Definition withFlags (st : ClusteredNonMaximumSuppression) (i n g : bool)
  : ClusteredNonMaximumSuppression :=
  {| imageDimX := imageDimX st; imageDimY := imageDimY st;
     imageScaleX := imageScaleX st; imageScaleY := imageScaleY st;
     inputDimX := inputDimX st; inputDimY := inputDimY st;
     gridDimX := gridDimX st; gridDimY := gridDimY st;
     cellWidth := cellWidth st; cellHeight := cellHeight st;
     gridSize := gridSize st;
     imageReady := i; inputReady := n; gridReady := g |}.

(** ** Sample data *)

(** A rectangle with integer edges, confidence 0.9 and class 0. *)
Definition rectZ (left top right bottom : Z) : float6 :=
  make_float6 (float_of_Z left) (float_of_Z top)
              (float_of_Z right) (float_of_Z bottom) f0_9 fzero.

(** A suppressor set up for a 2 by 2 grid over a 2 by 2 input and image:
    both scales and both cell sizes are 1. *)
Definition unitGrid22 : ClusteredNonMaximumSuppression :=
  {| imageDimX := 2; imageDimY := 2;
     imageScaleX := float_of_Z 1; imageScaleY := float_of_Z 1;
     inputDimX := 2; inputDimY := 2;
     gridDimX := 2; gridDimY := 2;
     cellWidth := 1; cellHeight := 1;
     gridSize := 4;
     imageReady := true; inputReady := true; gridReady := true |}.

(** Coverage and bboxes for [unitGrid22] and one class: the cells (0, 0)
    and (1, 0) of the top row are covered with confidence 0.5 and 0.9,
    and the box of cell (0, 0) reaches one pixel to the right, so that
    the two candidates overlap. *)
Definition topRowCoverage : N -> float := buffer [f0_5; f0_9; fzero; fzero].
Definition topRowBboxes : N -> float :=
  buffer [fzero; fzero; fzero; fzero; fzero; fzero; fzero; fzero;
          float_of_Z 1].

(** Coverage for [unitGrid22] and one class: the two cells of the
    diagonal are covered. *)
Definition diagonalCoverage : N -> float := buffer [f0_9; f0_1; f0_1; f0_9].

(** A rectangle with the edges 2.5, 3.0, 10.5 and 7.5. *)
Definition sampleRect : float6 :=
  make_float6 (S754_finite false 10485760 (-22))
              (S754_finite false 12582912 (-22))
              (S754_finite false 11010048 (-20))
              (S754_finite false 15728640 (-21)) f0_9 fzero.

(** ** Exceptions *)

Inductive exception :=
| invalid_argument (what : string)
| runtime_error (what : string)
| length_error (what : string)
| bad_alloc.

(** How a call ends: it returns a value, it throws, or its behaviour is
    undefined. *)
Inductive outcome (A : Type) :=
| Returns (a : A)
| Throws (e : exception)
| Undefined.

Arguments Returns {A} a.
Arguments Throws {A} e.
Arguments Undefined {A}.

#[global] Instance outcome_ret : MRet outcome := fun A a => Returns a.

#[global] Instance outcome_bind : MBind outcome :=
  fun A B f m =>
    match m with
    | Returns a => f a
    | Throws e => Throws e
    | Undefined => Undefined
    end.

(** An operation of the option monad, where [None] stands for undefined
    behaviour. *)
Definition defined {A : Type} (o : option A) : outcome A :=
  match o with
  | Some a => Returns a
  | None => Undefined
  end.

(** How a call that changes state ends, the state apart. *)
Inductive completion (A : Type) :=
| Normal (a : A)
| Raised (e : exception).

Arguments Normal {A} a.
Arguments Raised {A} e.

(** [std::to_string] of an [int]. *)
Definition to_string (z : Z) : string := NilZero.string_of_int (Z.to_int z).

(** ** [execute] as a call *)

(** [INT_MAX + 1] *)
Definition INT_LIMIT : N := 2 ^ 31.

(** One of the [int] counters [c], [y], [x] of the first loop nest of
    [execute] is incremented past [INT_MAX]: [c] when there are 2^31
    classes or more, [y] when there is a class and the grid has 2^31
    rows or more, [x] when there are a class and a row and the grid has
    2^31 columns or more. *)
Definition countersOverflow (st : ClusteredNonMaximumSuppression)
  (nbClasses : N) : bool :=
  (INT_LIMIT <=? nbClasses)
  || ((0 <? nbClasses)
      && ((INT_LIMIT <=? gridDimY st)
          || ((0 <? gridDimY st) && (INT_LIMIT <=? gridDimX st)))).

(** [execute] as a call, from its first statement on. [resize] is how
    [rects.resize(nbClasses)] ends for a given class count: it returns,
    or throws [std::length_error] (beyond the vector's [max_size]) or
    [std::bad_alloc]; which of them is the allocator's matter. Then come
    the loops of [execute], whose behaviour is undefined when an [int]
    counter overflows, [boxIndex] included. The allocations inside the
    loops ([reserve], [push_back]) are taken to succeed. *)
Definition executeCall (resize : N -> completion unit)
  (st : ClusteredNonMaximumSuppression) (coverage bboxes : N -> float)
  (nbClasses : N) (coverageThreshold : float)
  : outcome (list RTClassifiedRegionOfInterest) :=
  match resize nbClasses with
  | Raised e => Throws e
  | Normal _ =>
      if countersOverflow st nbClasses then Undefined
      else
        regions ← defined (execute st coverage bboxes nbClasses
                             coverageThreshold);
        if INT_LIMIT <=? N.of_nat (length regions) then Undefined
        else Returns regions
  end.

(** An allocator that provides up to [limit] vectors, within a
    [max_size] of [(2^63 - 1) / 24]. *)
Definition resizeUpTo (limit : N) (nbClasses : N) : completion unit :=
  if (2 ^ 63 - 1) / 24 <? nbClasses
  then Raised (length_error "vector::_M_default_append")
  else if limit <? nbClasses then Raised bad_alloc
  else Normal tt.

(** ** The engine and the detector *)

(** [nvinfer1::Dims]: the number of dimensions and the entries of [d]
    that have been assigned, in order; they are [int]s. *)
Record Dims := mkDims {
  nbDims : Z;
  d : list Z
}.

(** [nvinfer1::DimsCHW(channels, height, width)] *)
Definition DimsCHW (channels height width : Z) : Dims :=
  mkDims 3 [channels; height; width].

Inductive DataType := kFLOAT | kHALF | kINT8.

(** [NetworkInput(layer, dims, eleSize)] and
    [NetworkOutput(layer, dims, eleSize)]. *)
Record NetworkInput := mkNetworkInput {
  input_name : string;
  input_dims : Dims;
  input_eleSize : N
}.

Record NetworkOutput := mkNetworkOutput {
  output_name : string;
  output_dims : Dims;
  output_eleSize : N
}.

(** What the detector calls and this development does not look into:
    the TensorRT runtime behind the engine, and the file system. [RT] is
    the state of the runtime; [predict] yields the coverage and bboxes
    buffers of [outputs.batch[0]]. *)
Record External := mkExternal {
  RT : Type;
  LocatedExecutionMemory : Type;
  infile_good : string -> bool;
  loadCache : string -> RT -> outcome RT;
  loadModel : string -> string -> N -> DataType -> N ->
              list NetworkInput -> list NetworkOutput -> RT ->
              outcome (RT * bool);
  saveCache : string -> RT -> outcome RT;
  predict : RT -> LocatedExecutionMemory ->
            outcome (RT * ((N -> float) * (N -> float)))
}.

(** The data members of [CaffeRTEngine] that the code here uses. *)
Record CaffeRTEngine (X : External) := mkEngine {
  networkInputs : list NetworkInput;
  networkOutputs : list NetworkOutput;
  runtime : RT X
}.

Arguments mkEngine {X} _ _ _.
Arguments networkInputs {X} _.
Arguments networkOutputs {X} _.
Arguments runtime {X} _.

Definition addInput {X : External} (e : CaffeRTEngine X) (layer : string)
  (dims : Dims) (eleSize : N) : CaffeRTEngine X :=
  mkEngine (networkInputs e ++ [mkNetworkInput layer dims eleSize])
           (networkOutputs e) (runtime e).

Definition addOutput {X : External} (e : CaffeRTEngine X) (layer : string)
  (dims : Dims) (eleSize : N) : CaffeRTEngine X :=
  mkEngine (networkInputs e)
           (networkOutputs e ++ [mkNetworkOutput layer dims eleSize])
           (runtime e).

Definition INPUT_NAME : string := "data".
Definition OUTPUT_COVERAGE_NAME : string := "coverage".
Definition OUTPUT_BBOXES_NAME : string := "bboxes".

(** [sizeof(float)] *)
Definition sizeof_float : N := 4.

(** The data members of [DIGITSDetector]. *)
Record DIGITSDetector (X : External) := mkDetector {
  engine : CaffeRTEngine X;
  modelWidth : N;
  modelHeight : N;
  modelDepth : N;
  nbClasses : N;
  suppressor : ClusteredNonMaximumSuppression
}.

Arguments mkDetector {X} _ _ _ _ _ _.
Arguments engine {X} _.
Arguments modelWidth {X} _.
Arguments modelHeight {X} _.
Arguments modelDepth {X} _.
Arguments nbClasses {X} _.
Arguments suppressor {X} _.

Section Detector.

Variable X : External.
(** The constant [CHANNELS_BGR] of RTCommon.h. *)
Variable CHANNELS_BGR : N.

(** The [if]/[else] of the constructor that loads the engine. *)
Definition loadEngine (prototextPath modelPath cachePath : string)
  (dataType : DataType) (maxNetworkSize : N) (e : CaffeRTEngine X)
  : outcome (CaffeRTEngine X) :=
  if infile_good X cachePath then
    rt ← loadCache X cachePath (runtime e);
    Returns (mkEngine (networkInputs e) (networkOutputs e) rt)
  else
    r ← loadModel X prototextPath modelPath 1 dataType maxNetworkSize
                  (networkInputs e) (networkOutputs e) (runtime e);
    rt ← saveCache X cachePath (fst r);
    Returns (mkEngine (networkInputs e) (networkOutputs e) rt).

(** The constructor of [DIGITSDetector], from the engine [e0] that the
    constructor of [CaffeRTEngine] has made. *)
Definition DIGITSDetector_new (e0 : CaffeRTEngine X)
  (prototextPath modelPath cachePath : string)
  (nbChannels width height stride nbClasses : N) (dataType : DataType)
  (maxNetworkSize : N) : outcome (DIGITSDetector X) :=
  if negb (nbChannels =? CHANNELS_BGR) then
    Throws (invalid_argument "Only BGR DetectNets are supported currently")
  else
    let e := addInput e0 INPUT_NAME
               (DimsCHW (int_of_size_t nbChannels) (int_of_size_t height)
                        (int_of_size_t width))
               sizeof_float in
    d1 ← defined (div64 height stride);
    d2 ← defined (div64 width stride);
    let outputDimsCoverage :=
      mkDims 3 [int_of_size_t nbClasses; int_of_size_t d1; int_of_size_t d2] in
    let e := addOutput e OUTPUT_COVERAGE_NAME outputDimsCoverage sizeof_float in
    d1 ← defined (div64 height stride);
    d2 ← defined (div64 width stride);
    let outputDimsBboxes :=
      mkDims 3 [4%Z; int_of_size_t d1; int_of_size_t d2] in
    let e := addOutput e OUTPUT_BBOXES_NAME outputDimsBboxes sizeof_float in
    e ← loadEngine prototextPath modelPath cachePath dataType maxNetworkSize e;
    s ← defined (setupInput CNMS_new width height);
    gx ← defined (div64 width stride);
    gy ← defined (div64 height stride);
    s ← defined (setupGrid s gx gy);
    Returns (mkDetector e width height nbChannels nbClasses s).

Definition detect (det : DIGITSDetector X)
  (inputs : LocatedExecutionMemory X) (threshold : float)
  : outcome (DIGITSDetector X * list RTClassifiedRegionOfInterest) :=
  r ← predict X (runtime (engine det)) inputs;
  let coverage := fst (snd r) in
  let bboxes := snd (snd r) in
  s ← defined (setupImage (suppressor det) (modelWidth det) (modelHeight det));
  regions ← defined (execute s coverage bboxes (nbClasses det) threshold);
  Returns (mkDetector (mkEngine (networkInputs (engine det))
                                (networkOutputs (engine det)) (fst r))
                      (modelWidth det) (modelHeight det) (modelDepth det)
                      (nbClasses det) s,
           regions).

End Detector.

(** The number of elements of a tensor. *)
Definition volume (dims : Dims) : Z := foldr Z.mul 1%Z (d dims).

(** ** Staging host memory, and the preprocessor's destructor *)

(** What the preprocessor calls and this development does not look into:
    the class [CUDASizedMemCache] of RTCommon.h and the CUDA runtime.
    [Device] is the state of the device; [getCUDAAlloc] may change the
    cache and the device and yields a device address or throws;
    [cudaMemcpy] yields its error code. *)
Record Cuda := mkCuda {
  Cache : Type;
  DevPtr : Type;
  HostPtr : Type;
  Device : Type;
  newCUDASizedMemCache : Cache;
  deleteCUDASizedMemCache : Cache -> Device -> Device;
  getCUDAAlloc : Cache -> Device -> N -> Cache * Device * completion DevPtr;
  cudaMemcpy : Device -> DevPtr -> HostPtr -> N -> Device * Z
}.

Section Staging.

Variable C : Cuda.

(** The caches in memory, the preprocessor and the device. *)
Definition machine : Type := world (Cache C) * Device C.

(** [inputFromHost]; [None] when [inputCache] points to no cache. *)
Definition inputFromHost (m : machine) (hostMemory : HostPtr C) (size : N)
  : option (machine * completion unit) :=
  let w := fst m in
  cache ← heap w !! inputCache (this w);
  let '(cache', dev1, alloc) := getCUDAAlloc C cache (snd m) size in
  let w' := mkWorld (<[inputCache (this w) := cache']> (heap w)) (this w) in
  match alloc with
  | Raised e => Some ((w', dev1), Raised e)
  | Normal deviceMemory =>
      let '(dev2, hostDeviceError) :=
        cudaMemcpy C dev1 deviceMemory hostMemory size in
      if negb (hostDeviceError =? 0)%Z then
        Some ((w', dev2),
              Raised (runtime_error
                        ("Unable to copy host memory to device for preprocessing. CUDA Error: "
                         +:+ to_string hostDeviceError)))
      else Some ((w', dev2), Normal tt)
  end.

(** [delete p] for a cache pointer; [None] when [p] points to no cache. *)
Definition deleteCache (h : gmap ptr (Cache C)) (dev : Device C) (p : ptr)
  : option (gmap ptr (Cache C) * Device C) :=
  cache ← h !! p;
  Some (delete p h, deleteCUDASizedMemCache C cache dev).

(** The destructor of [CUDAImagePreprocessor]: the memory and the device
    it leaves. *)
Definition CUDAImagePreprocessor_delete (m : machine)
  : option (gmap ptr (Cache C) * Device C) :=
  r ← deleteCache (heap (fst m)) (snd m) (inputCache (this (fst m)));
  deleteCache (fst r) (snd r) (outputCache (this (fst m))).

(** The calls a user can make on a preprocessor. *)
Inductive preprocessorCall :=
| CallSwapIO
| CallInputFromHost (hostMemory : HostPtr C) (size : N).

(** The calls of [ks] one after the other; a call that throws leaves the
    machine as it is by then, and the next call goes on from there. *)
Fixpoint runPreprocessor (ks : list preprocessorCall) (m : machine)
  : option machine :=
  match ks with
  | [] => Some m
  | CallSwapIO :: ks' => runPreprocessor ks' (swapIO (fst m), snd m)
  | CallInputFromHost hostMemory size :: ks' =>
      r ← inputFromHost m hostMemory size;
      runPreprocessor ks' (fst r)
  end.

End Staging.

(** The two cache pointers of the machine [m] are distinct and point to
    caches, and but for those two caches the memory is [h]. *)
Definition ownsCaches (C : Cuda) (h : gmap ptr (Cache C)) (m : machine C)
  : Prop :=
  let w := fst m in
  inputCache (this w) <> outputCache (this w)
  /\ is_Some (heap w !! inputCache (this w))
  /\ is_Some (heap w !! outputCache (this w))
  /\ h !! inputCache (this w) = None
  /\ h !! outputCache (this w) = None
  /\ (forall p, p <> inputCache (this w) -> p <> outputCache (this w) ->
                heap w !! p = h !! p).

(** A runtime and a CUDA layer that do nothing, for examples. *)
Definition idleExternal : External :=
  {| RT := unit; LocatedExecutionMemory := unit;
     infile_good := fun _ => true;
     loadCache := fun _ rt => Returns rt;
     loadModel := fun _ _ _ _ _ _ _ rt => Returns (rt, true);
     saveCache := fun _ rt => Returns rt;
     predict := fun rt _ => Returns (rt, (diagonalCoverage, buffer [])) |}.

(** The engine before anything is registered. *)
Definition idleEngine : CaffeRTEngine idleExternal :=
  @mkEngine idleExternal [] [] tt.

(** The detector that the constructor makes of a 640 by 480 network
    with stride 16 and two classes, and its suppressor once [detect] has
    set the image size. *)
Definition sampleDetector : DIGITSDetector idleExternal :=
  mkDetector
    (@mkEngine idleExternal
       [mkNetworkInput "data" (mkDims 3 [3; 480; 640]%Z) 4]
       [mkNetworkOutput "coverage" (mkDims 3 [2; 30; 40]%Z) 4;
        mkNetworkOutput "bboxes" (mkDims 3 [4; 30; 40]%Z) 4]
       tt)
    640 480 3 2
    {| imageDimX := 0; imageDimY := 0;
       imageScaleX := fzero; imageScaleY := fzero;
       inputDimX := 640; inputDimY := 480;
       gridDimX := 40; gridDimY := 30;
       cellWidth := 0; cellHeight := 0;
       gridSize := 1200;
       imageReady := false; inputReady := true; gridReady := true |}.

Definition sampleReady : ClusteredNonMaximumSuppression :=
  {| imageDimX := 640; imageDimY := 480;
     imageScaleX := float_of_Z 1; imageScaleY := float_of_Z 1;
     inputDimX := 640; inputDimY := 480;
     gridDimX := 40; gridDimY := 30;
     cellWidth := 16; cellHeight := 16;
     gridSize := 1200;
     imageReady := true; inputReady := true; gridReady := true |}.

Definition idleCuda : Cuda :=
  {| Cache := N; DevPtr := N; HostPtr := N; Device := unit;
     newCUDASizedMemCache := 0;
     deleteCUDASizedMemCache := fun _ dev => dev;
     getCUDAAlloc := fun cache dev size => (size, dev, Normal size);
     cudaMemcpy := fun dev _ _ _ => (dev, 0%Z) |}.

(** A preprocessor whose caches are at the addresses 1 and 2. *)
Definition sampleMachine : machine idleCuda :=
  (mkWorld (<[1%positive := 0]> (<[2%positive := 0]> ∅))
           (mkPreprocessor 1%positive 2%positive), tt).

Definition isSetupImage (k : call) : bool :=
  match k with SetupImage _ _ => true | _ => false end.

Definition isSetupInput (k : call) : bool :=
  match k with SetupInput _ _ => true | _ => false end.

(** The four scale factors. *)
Definition scaleFactors (st : ClusteredNonMaximumSuppression)
  : float * float * N * N :=
  (imageScaleX st, imageScaleY st, cellWidth st, cellHeight st).

(** ** Containment of rectangles *)

(** No edge of [inner] sticks out of [outer], by the comparisons that
    [mergeRect] makes. *)
Definition contains (outer inner : float6) : bool :=
  negb (flt (f6_x inner) (f6_x outer)) && negb (flt (f6_y inner) (f6_y outer))
  && negb (fgt (f6_z inner) (f6_z outer)) && negb (fgt (f6_w inner) (f6_w outer)).

(** The four edges are NaN. *)
Definition nanEdges (r : float6) : Prop :=
  f6_x r = S754_nan /\ f6_y r = S754_nan
  /\ f6_z r = S754_nan /\ f6_w r = S754_nan.

(** ** Tactics for the setters *)

#[local] Arguments float_of_size_t : simpl never.
#[local] Arguments float_of_Z : simpl never.
#[local] Arguments float_of_nat : simpl never.
#[local] Arguments mul64 : simpl never.
#[local] Arguments sub64 : simpl never.
#[local] Arguments N.div : simpl never.
#[local] Arguments N.eqb : simpl never.

Ltac unfold_setters :=
  unfold run, doCall, setupImage, setupInput, setupGrid, allReady,
    calculateScale, div64 in *; cbn in *.

Ltac split_zero_tests H :=
  repeat match type of H with
    | context [N.eqb ?a 0] => destruct (N.eqb_spec a 0); cbn in H
    end.

Ltac split_zero_tests_goal :=
  repeat match goal with
    | |- context [N.eqb ?a 0] => destruct (N.eqb_spec a 0); cbn
    end.

(** * Properties *)

(** ** [mergeRect] *)

Lemma expandRect_union acc rect : expandRect acc rect = unionRect acc rect.
Proof.
  destruct acc as [ax ay az aw av au], rect as [bx byy bz bw bv bu].
  unfold expandRect, unionRect, fmin, fmax, set_x, set_y, set_z, set_w; cbn.
  destruct (flt bx ax); cbn; destruct (flt byy ay); cbn;
    destruct (fgt bz az); cbn; destruct (fgt bw aw); reflexivity.
Qed.

Lemma mergeRect_nil rect : mergeRect [] rect = [rect].
Proof. reflexivity. Qed.

Lemma mergeRect_cons r1 rest rect :
  mergeRect (r1 :: rest) rect =
  if rectOverlap r1 rect then unionRect r1 rect :: rest
  else r1 :: mergeRect rest rect.
Proof.
  unfold mergeRect; cbn.
  destruct (rectOverlap r1 rect); cbn.
  - now rewrite expandRect_union.
  - destruct (mergeRect_loop rest rect) as [rest' b]; now destruct b.
Qed.

(** The loop as a search for the first overlapping rectangle. *)
Lemma mergeRect_find rects rect :
  mergeRect rects rect =
  match list_find (fun r => rectOverlap r rect = true) rects with
  | Some (i, r1) => <[i := unionRect r1 rect]> rects
  | None => rects ++ [rect]
  end.
Proof.
  induction rects as [|r1 rest IH]; [reflexivity|].
  rewrite mergeRect_cons; cbn.
  destruct (decide (rectOverlap r1 rect = true)) as [Hov|Hov].
  - now rewrite Hov.
  - apply not_true_is_false in Hov; rewrite Hov, IH.
    destruct (list_find _ rest) as [[i r]|]; reflexivity.
Qed.

Lemma mergeRect_hit rects rect i r1 :
  rects !! i = Some r1 ->
  rectOverlap r1 rect = true ->
  (forall j r', (j < i)%nat -> rects !! j = Some r' -> rectOverlap r' rect = false) ->
  mergeRect rects rect = <[i := unionRect r1 rect]> rects.
Proof.
  intros Hi Hov Hfirst.
  rewrite mergeRect_find.
  assert (list_find (fun r => rectOverlap r rect = true) rects = Some (i, r1)) as ->;
    [|reflexivity].
  apply list_find_Some; repeat split; try assumption.
  intros j y Hj Hlt Hy. rewrite (Hfirst j y Hlt Hj) in Hy. discriminate.
Qed.

Lemma mergeRect_miss rects rect :
  (forall r', r' ∈ rects -> rectOverlap r' rect = false) ->
  mergeRect rects rect = rects ++ [rect].
Proof.
  intros Hnone. rewrite mergeRect_find.
  assert (list_find (fun r => rectOverlap r rect = true) rects = None) as ->;
    [|reflexivity].
  apply list_find_None, Forall_forall.
  intros r Hr. rewrite (Hnone r Hr). discriminate.
Qed.

(** C2. [mergeRect] scans the accumulated rectangles in vector order. The
    first rectangle that passes the overlap test
    [!(r2.x > r1.z || r2.z < r1.x || r2.y > r1.w || r2.w < r1.y)] is
    replaced by the union of its edges with the candidate's (the lesser
    left and top, the greater right and bottom), everything else in the
    vector staying as it was; when no rectangle passes the test the
    candidate is appended at the end. *)
Theorem mergeRect_first_match (rects : list float6) (rect : float6) :
  (forall i r1,
      rects !! i = Some r1 ->
      rectOverlap r1 rect = true ->
      (forall j r', (j < i)%nat -> rects !! j = Some r' ->
                    rectOverlap r' rect = false) ->
      mergeRect rects rect =
      <[i := {| f6_x := fmin (f6_x rect) (f6_x r1);
                f6_y := fmin (f6_y rect) (f6_y r1);
                f6_z := fmax (f6_z rect) (f6_z r1);
                f6_w := fmax (f6_w rect) (f6_w r1);
                f6_v := f6_v r1;
                f6_u := f6_u r1 |}]> rects)
  /\ ((forall r', r' ∈ rects -> rectOverlap r' rect = false) ->
      mergeRect rects rect = rects ++ [rect])
  /\ (forall r1,
        rectOverlap r1 rect =
        negb (fgt (f6_x rect) (f6_z r1) || flt (f6_z rect) (f6_x r1)
              || fgt (f6_y rect) (f6_w r1) || flt (f6_w rect) (f6_y r1))).
Proof.
  split; [|split].
  - intros i r1 Hi Hov Hfirst. now apply mergeRect_hit.
  - apply mergeRect_miss.
  - reflexivity.
Qed.

Lemma mergeRect_first_match_witness :
  mergeRect [rectZ 0 0 1 1; rectZ 5 5 7 7; rectZ 6 6 9 9] (rectZ 4 6 6 8)
  = [rectZ 0 0 1 1; rectZ 4 5 7 8; rectZ 6 6 9 9]
  /\ mergeRect [rectZ 0 0 1 1] (rectZ 4 6 6 8) = [rectZ 0 0 1 1; rectZ 4 6 6 8].
Proof.
  split.
  - refine (proj1 (mergeRect_first_match _ _) 1%nat (rectZ 5 5 7 7) _ _ _).
    + reflexivity.
    + vm_compute; reflexivity.
    + intros [|j] r' Hlt Hj; [|lia].
      injection Hj as <-. vm_compute; reflexivity.
  - refine (proj1 (proj2 (mergeRect_first_match _ _)) _).
    intros r' Hr. apply list_elem_of_singleton in Hr as ->.
    vm_compute; reflexivity.
Defined.

(** ** The first loop nest *)

Lemma cellBody_candidate st coverage bboxes thr c y x rects :
  cellBody st coverage bboxes thr c y x rects =
  if aboveThreshold st coverage thr c (y, x)
  then alter (fun v => mergeRect v (cellRect st coverage bboxes c (y, x))) c rects
  else rects.
Proof. reflexivity. Qed.

Lemma foldl_flat_map {A B C} (f : A -> B -> A) (g : C -> list B) l a :
  foldl f a (flat_map g l) = foldl (fun a y => foldl f a (g y)) a l.
Proof.
  revert a; induction l as [|y l IH]; intros a; cbn; [reflexivity|].
  now rewrite foldl_app, IH.
Qed.

Lemma foldl_map {A B C} (f : A -> B -> A) (g : C -> B) l a :
  foldl f a (map g l) = foldl (fun a y => f a (g y)) a l.
Proof.
  revert a; induction l as [|y l IH]; intros a; cbn; [reflexivity|apply IH].
Qed.

Lemma foldl_ext {A B} (f g : A -> B -> A) l a :
  (forall a b, f a b = g a b) -> foldl f a l = foldl g a l.
Proof.
  intros Hfg; revert a; induction l as [|y l IH]; intros a; cbn;
    [reflexivity|]. now rewrite Hfg, IH.
Qed.

(** A loop that only ever merges into [rects[c]] amounts to one update
    of [rects[c]]. *)
Lemma foldl_merge_alter {C} (P : C -> bool) (R : C -> float6) (c : nat) l
  (rects : list (list float6)) :
  foldl (fun s cell => if P cell then alter (fun v => mergeRect v (R cell)) c s
                       else s) rects l
  = alter (fun v => foldl mergeRect v (map R (List.filter P l))) c rects.
Proof.
  revert rects; induction l as [|cell l IH]; intros rects; cbn.
  - symmetry. now apply list_alter_id.
  - rewrite IH. destruct (P cell); cbn; [|reflexivity].
    now rewrite list_alter_alter_eq.
Qed.

Lemma classPass_alter st coverage bboxes thr c rects :
  for_upto (N.to_nat (gridDimY st)) (fun y =>
    for_upto (N.to_nat (gridDimX st)) (fun x =>
      cellBody st coverage bboxes thr c y x)) rects
  = alter (fun v => foldl mergeRect v (candidates st coverage bboxes thr c))
          c rects.
Proof.
  unfold candidates, cells, for_upto.
  rewrite <- foldl_merge_alter, foldl_flat_map.
  apply foldl_ext; intros s y.
  rewrite foldl_map. apply foldl_ext; intros s' x.
  apply cellBody_candidate.
Qed.

Lemma class_loop_lookup (F : nat -> list float6 -> list float6) n
  (rects : list (list float6)) c :
  foldl (fun s k => alter (F k) k s) rects (seq 0 n) !! c
  = if decide (c < n)%nat then F c <$> rects !! c else rects !! c.
Proof.
  induction n as [|n IH].
  - cbn. destruct (decide _); [lia|reflexivity].
  - rewrite seq_S, foldl_snoc; cbn.
    rewrite list_lookup_alter.
    destruct (decide (n = c)) as [->|Hne]; rewrite IH.
    + destruct (decide (c < c)%nat); [lia|].
      destruct (decide (c < S c)%nat); [reflexivity|lia].
    + destruct (decide (c < n)%nat), (decide (c < S n)%nat);
        try reflexivity; lia.
Qed.

(** After the first loop nest [rects[c]] holds the accumulated rectangles
    of the candidates of class [c]. *)
Lemma cluster_classes st coverage bboxes thr nbClasses :
  cluster st coverage bboxes thr nbClasses
  = map (fun c => accumulate (candidates st coverage bboxes thr c))
        (seq 0 (N.to_nat nbClasses)).
Proof.
  unfold cluster, for_upto at 1.
  rewrite (foldl_ext _ (fun s k => alter (fun v => foldl mergeRect v
             (candidates st coverage bboxes thr k)) k s))
    by (intros; apply classPass_alter).
  apply list_eq; intros i.
  rewrite (class_loop_lookup
             (fun k v => foldl mergeRect v (candidates st coverage bboxes thr k))).
  change (map ?f ?l) with (f <$> l).
  rewrite list_lookup_fmap.
  destruct (decide (i < N.to_nat nbClasses)%nat) as [Hlt|Hge].
  - rewrite lookup_replicate_2, lookup_seq_lt by assumption. reflexivity.
  - rewrite lookup_seq_ge by lia.
    apply lookup_replicate_None. lia.
Qed.

(** ** The second loop nest *)

Lemma mapM_app {A B} (f : A -> option B) l1 l2 :
  mapM f (l1 ++ l2) = r1 ← mapM f l1; r2 ← mapM f l2; Some (r1 ++ r2).
Proof.
  induction l1 as [|a l1 IH]; cbn.
  - destruct (mapM f l2); reflexivity.
  - destruct (f a) as [b|]; cbn; [|reflexivity].
    rewrite IH. destruct (mapM f l1); cbn; [|reflexivity].
    destruct (mapM f l2); reflexivity.
Qed.

Lemma emitBoxes_take maxBoxes boxes acc boxIndex :
  emitBoxes maxBoxes boxes (acc, boxIndex)
  = rs ← mapM toRegion (take (N.to_nat maxBoxes - boxIndex) boxes);
    Some (acc ++ rs, (boxIndex + length rs)%nat).
Proof.
  revert acc boxIndex; induction boxes as [|r rest IH]; intros acc boxIndex.
  - rewrite take_nil; cbn. now rewrite app_nil_r, Nat.add_0_r.
  - cbn [emitBoxes fst snd].
    destruct (N.ltb_spec (N.of_nat boxIndex) maxBoxes) as [Hlt|Hge].
    + replace (N.to_nat maxBoxes - boxIndex)%nat
        with (S (N.to_nat maxBoxes - S boxIndex)) by lia.
      cbn. destruct (toRegion r) as [roi|]; cbn; [|reflexivity].
      rewrite IH. destruct (mapM toRegion _) as [rs|]; cbn; [|reflexivity].
      rewrite <- app_assoc; cbn. do 3 f_equal. lia.
    + replace (N.to_nat maxBoxes - boxIndex)%nat with 0%nat by lia.
      cbn. now rewrite app_nil_r, Nat.add_0_r.
Qed.

Lemma emit_classes_take maxBoxes (rects : list (list float6)) k a acc boxIndex :
  (a + k <= length rects)%nat ->
  for_each_M (seq a k)
    (fun c s => boxes ← rects !! c; emitBoxes maxBoxes boxes s) (acc, boxIndex)
  = rs ← mapM toRegion (take (N.to_nat maxBoxes - boxIndex)
                             (concat (take k (drop a rects))));
    Some (acc ++ rs, (boxIndex + length rs)%nat).
Proof.
  revert a acc boxIndex; induction k as [|k IH]; intros a acc boxIndex Hlen.
  - rewrite take_0; cbn. rewrite take_nil; cbn.
    now rewrite app_nil_r, Nat.add_0_r.
  - cbn [seq for_each_M].
    destruct (lookup_lt_is_Some_2 rects a ltac:(lia)) as [boxes Hboxes].
    rewrite Hboxes; cbn [mbind option_bind].
    rewrite (drop_S _ _ _ Hboxes); cbn [take concat].
    rewrite take_app, mapM_app, emitBoxes_take.
    destruct (mapM toRegion (take _ boxes)) as [r1|] eqn:Hr1; cbn; [|reflexivity].
    rewrite IH by lia.
    apply length_mapM in Hr1. rewrite length_take in Hr1.
    replace (N.to_nat maxBoxes - (boxIndex + length r1))%nat
      with (N.to_nat maxBoxes - boxIndex - length boxes)%nat.
    2:{ destruct (Nat.le_ge_cases (N.to_nat maxBoxes - boxIndex) (length boxes)).
        - rewrite Nat.min_l in Hr1 by assumption. lia.
        - rewrite Nat.min_r in Hr1 by assumption. lia. }
    destruct (mapM toRegion _) as [r2|]; cbn; [|reflexivity].
    rewrite <- app_assoc, length_app. do 2 f_equal. lia.
Qed.

(** [execute] converts the rectangles of [emitted], in order. *)
Lemma execute_emitted st coverage bboxes nbClasses thr :
  execute st coverage bboxes nbClasses thr
  = mapM toRegion (emitted st coverage bboxes nbClasses thr).
Proof.
  unfold execute, emit, emitted.
  rewrite emit_classes_take
    by (rewrite cluster_classes, length_map, length_seq; lia).
  rewrite drop_0, Nat.sub_0_r, cluster_classes.
  rewrite (take_ge _ (N.to_nat nbClasses))
    by (rewrite length_map, length_seq; lia).
  destruct (mapM toRegion _); reflexivity.
Qed.

(** ** Readiness *)

Lemma concat_all_nil {A B} (f : A -> list B) l :
  (forall a, f a = []) -> concat (map f l) = [].
Proof.
  intros Hf; induction l as [|a l IH]; cbn; [reflexivity|].
  now rewrite Hf, IH.
Qed.

Lemma execute_no_rows st coverage bboxes nbClasses thr :
  cells st = [] ->
  execute st coverage bboxes nbClasses thr = Some [].
Proof.
  intros Hcells. rewrite execute_emitted. unfold emitted.
  rewrite concat_all_nil; [now rewrite take_nil|].
  intros c. unfold candidates. now rewrite Hcells.
Qed.

Lemma cells_no_grid st :
  gridDimX st = 0 \/ gridDimY st = 0 -> cells st = [].
Proof.
  unfold cells; intros [-> | ->]; [|reflexivity].
  induction (seq 0 (N.to_nat (gridDimY st))) as [|y l IH];
    [reflexivity|apply IH].
Qed.

Lemma run_without_grid ks st st' :
  forallb (fun k => negb (isSetupGrid k)) ks = true ->
  run ks st = Some st' ->
  gridReady st = false ->
  gridReady st' = false /\ gridDimX st' = gridDimX st
  /\ gridDimY st' = gridDimY st /\ gridSize st' = gridSize st.
Proof.
  revert st; induction ks as [|k ks IH]; intros st Hks Hrun Hg; cbn in *.
  - now injection Hrun as <-.
  - apply andb_prop in Hks as [Hk Hks].
    destruct (doCall k st) as [st1|] eqn:Hcall; [|discriminate].
    cbn in Hrun.
    assert (st1 = match k with
                  | SetupImage a b =>
                      mkCNMS a b (imageScaleX st) (imageScaleY st)
                        (inputDimX st) (inputDimY st) (gridDimX st) (gridDimY st)
                        (cellWidth st) (cellHeight st) (gridSize st)
                        true (inputReady st) false
                  | SetupInput a b =>
                      mkCNMS (imageDimX st) (imageDimY st)
                        (imageScaleX st) (imageScaleY st)
                        a b (gridDimX st) (gridDimY st)
                        (cellWidth st) (cellHeight st) (gridSize st)
                        (imageReady st) true false
                  | SetupGrid _ _ => st1
                  end) as Hst1.
    { destruct k; cbn in Hk, Hcall; try discriminate;
        unfold setupImage, setupInput, allReady in Hcall; cbn in Hcall;
        rewrite Hg, andb_false_r in Hcall; now injection Hcall as <-. }
    destruct (IH st1 Hks Hrun) as (H1 & H2 & H3 & H4).
    + rewrite Hst1; destruct k; try reflexivity; discriminate.
    + rewrite H1, H2, H3, H4, Hst1.
      destruct k; try discriminate; now cbn.
Qed.

(** C1 (as the code has it). [execute] tests no readiness flag and
    throws no error of its own: how a call ends is the same whatever
    the three flags are. On a suppressor constructed and then given at
    most an image size and an input size, but no grid size, the grid is
    still empty ([reserve(0)] allocates nothing and nothing is pushed),
    and the call ends as follows, for every coverage and bbox input and
    threshold: if [rects.resize(nbClasses)] throws, with that exception
    of the allocator; otherwise, with fewer than 2^31 classes, it
    returns the empty list; from 2^31 classes on the [int] class counter
    overflows. *)
Theorem execute_not_gated (resize : N -> completion unit)
  (coverage bboxes : N -> float) (nbClasses : N) (thr : float) :
  (forall st i n g,
      executeCall resize (withFlags st i n g) coverage bboxes nbClasses thr
      = executeCall resize st coverage bboxes nbClasses thr)
  /\ (forall ks st,
        forallb (fun k => negb (isSetupGrid k)) ks = true ->
        run ks CNMS_new = Some st ->
        allReady st = false
        /\ gridDimX st = 0 /\ gridDimY st = 0 /\ gridSize st = 0
        /\ executeCall resize st coverage bboxes nbClasses thr
           = match resize nbClasses with
             | Raised e => Throws e
             | Normal _ =>
                 if INT_LIMIT <=? nbClasses then Undefined else Returns []
             end).
Proof.
  split.
  - reflexivity.
  - intros ks st Hks Hrun.
    destruct (run_without_grid ks CNMS_new st Hks Hrun eq_refl)
      as (Hg & Hx & Hy & Hsize).
    cbn in Hx, Hy, Hsize.
    split; [unfold allReady; rewrite Hg; apply andb_false_r|].
    split; [exact Hx|]. split; [exact Hy|]. split; [exact Hsize|].
    unfold executeCall, countersOverflow.
    rewrite (execute_no_rows st) by (apply cells_no_grid; now left).
    rewrite Hy. cbn [defined mbind outcome_bind length].
    destruct (resize nbClasses) as [u|e]; [|reflexivity].
    destruct (INT_LIMIT <=? nbClasses); [reflexivity|].
    cbn. now rewrite andb_false_r.
Qed.

Lemma execute_not_gated_witness :
  exists st,
    run [SetupImage 640 480; SetupInput 640 480] CNMS_new = Some st
    /\ allReady st = false
    /\ executeCall (resizeUpTo 1000) st (buffer [f0_9; f0_9]) (buffer []) 2 f0_5
       = Returns []
    /\ executeCall (resizeUpTo 1000) st (buffer [f0_9; f0_9]) (buffer [])
         (2 ^ 62) f0_5
       = Throws (length_error "vector::_M_default_append").
Proof.
  eexists. split; [reflexivity|].
  destruct (proj2 (execute_not_gated (resizeUpTo 1000) (buffer [f0_9; f0_9])
                     (buffer []) 2 f0_5)
              [SetupImage 640 480; SetupInput 640 480] _ eq_refl eq_refl)
    as (Hready & _ & _ & _ & Hsmall).
  destruct (proj2 (execute_not_gated (resizeUpTo 1000) (buffer [f0_9; f0_9])
                     (buffer []) (2 ^ 62) f0_5)
              [SetupImage 640 480; SetupInput 640 480] _ eq_refl eq_refl)
    as (_ & _ & _ & _ & Hhuge).
  split; [exact Hready|]. split; [exact Hsmall|exact Hhuge].
Defined.

(** C1, refuted as stated: [execute] on a suppressor that has just been
    constructed returns the empty list, and on one that was given only a
    grid size it returns a region whose edges are all scaled to zero;
    neither call fails. *)
Lemma execute_unconfigured_returns :
  allReady CNMS_new = false
  /\ execute CNMS_new (buffer [f0_9]) (buffer []) 1 f0_5 = Some []
  /\ (st ← setupGrid CNMS_new 2 2;
      Some (allReady st,
            execute st (buffer [f0_9; f0_1; f0_1; f0_9]) (buffer []) 1 f0_5))
     = Some (false, Some [mkROI 0 f0_9 0 0 0 0]).
Proof. vm_compute. repeat split. Qed.

(** ** The setters *)

(** Whatever the suppressor was before, three setter calls that all
    return leave it in one state, fixed by the values passed. *)
Lemma run_order_final st iw ih nw nh gw gh o s :
  o ∈ orders (SetupImage iw ih) (SetupInput nw nh) (SetupGrid gw gh) ->
  run o st = Some s ->
  s = {| imageDimX := iw; imageDimY := ih;
         imageScaleX := float_of_size_t (nw / iw);
         imageScaleY := float_of_size_t (nh / ih);
         inputDimX := nw; inputDimY := nh;
         gridDimX := gw; gridDimY := gh;
         cellWidth := nw / gw; cellHeight := nh / gh;
         gridSize := mul64 gw gh;
         imageReady := true; inputReady := true; gridReady := true |}.
Proof.
  intros Ho Hrun. unfold orders in Ho.
  destruct st as [a1 a2 a3 a4 a5 a6 a7 a8 a9 a10 a11 [|] [|] [|]].
  all: repeat (apply elem_of_cons in Ho as [-> | Ho]); [..|inversion Ho].
  all: unfold_setters; split_zero_tests Hrun; try discriminate;
    injection Hrun as <-; reflexivity.
Qed.

Lemma run_orders_new iw ih nw nh gw gh :
  Forall (fun o =>
            run o CNMS_new
            = calculateScale
                {| imageDimX := iw; imageDimY := ih;
                   imageScaleX := fzero; imageScaleY := fzero;
                   inputDimX := nw; inputDimY := nh;
                   gridDimX := gw; gridDimY := gh;
                   cellWidth := 0; cellHeight := 0;
                   gridSize := mul64 gw gh;
                   imageReady := true; inputReady := true;
                   gridReady := true |})
         (orders (SetupImage iw ih) (SetupInput nw nh) (SetupGrid gw gh)).
Proof.
  unfold orders.
  repeat (constructor;
          [unfold_setters; split_zero_tests_goal; reflexivity|]).
  constructor.
Qed.

Lemma call_twice k st : run [k; k] st = run [k] st.
Proof.
  destruct st as [a1 a2 a3 a4 a5 a6 a7 a8 a9 a10 a11 [|] [|] [|]], k.
  all: unfold_setters; split_zero_tests_goal;
    first [reflexivity | exfalso; congruence].
Qed.

Lemma call_ready_scales k st s :
  doCall k st = Some s ->
  allReady s = true ->
  (imageDimX s <> 0 /\ imageDimY s <> 0 /\ gridDimX s <> 0 /\ gridDimY s <> 0)
  /\ imageScaleX s = float_of_size_t (inputDimX s / imageDimX s)
  /\ imageScaleY s = float_of_size_t (inputDimY s / imageDimY s)
  /\ cellWidth s = inputDimX s / gridDimX s
  /\ cellHeight s = inputDimY s / gridDimY s.
Proof.
  intros Hcall Hready.
  destruct st as [a1 a2 a3 a4 a5 a6 a7 a8 a9 a10 a11 [|] [|] [|]], k.
  all: unfold_setters; split_zero_tests Hcall; try discriminate.
  all: injection Hcall as <-; cbn in *; try discriminate.
  all: repeat split; assumption.
Qed.

(** C4. From construction, the six orders of the three setter calls end
    in the same state, scale factors included (and when an image or grid
    dimension is zero all six hit the same undefined division); from any
    state, two orders that both return end in the same state. Calling a
    setter a second time with the same values changes nothing. Calling a
    setter on a suppressor that is ready recomputes all four scale
    factors from the values just passed and the other dimensions held. *)
Theorem setters_any_order (iw ih nw nh gw gh : N) :
  Forall (fun o =>
            run o CNMS_new
            = calculateScale
                {| imageDimX := iw; imageDimY := ih;
                   imageScaleX := fzero; imageScaleY := fzero;
                   inputDimX := nw; inputDimY := nh;
                   gridDimX := gw; gridDimY := gh;
                   cellWidth := 0; cellHeight := 0;
                   gridSize := mul64 gw gh;
                   imageReady := true; inputReady := true;
                   gridReady := true |})
         (orders (SetupImage iw ih) (SetupInput nw nh) (SetupGrid gw gh))
  /\ (forall st o1 o2 s1 s2,
        o1 ∈ orders (SetupImage iw ih) (SetupInput nw nh) (SetupGrid gw gh) ->
        o2 ∈ orders (SetupImage iw ih) (SetupInput nw nh) (SetupGrid gw gh) ->
        run o1 st = Some s1 -> run o2 st = Some s2 ->
        s1 = s2
        /\ imageScaleX s1 = float_of_size_t (nw / iw)
        /\ imageScaleY s1 = float_of_size_t (nh / ih)
        /\ cellWidth s1 = nw / gw
        /\ cellHeight s1 = nh / gh)
  /\ (forall st k, run [k; k] st = run [k] st)
  /\ (forall st s,
        allReady st = true ->
        (setupImage st iw ih = Some s ->
         imageScaleX s = float_of_size_t (inputDimX st / iw)
         /\ imageScaleY s = float_of_size_t (inputDimY st / ih)
         /\ cellWidth s = inputDimX st / gridDimX st
         /\ cellHeight s = inputDimY st / gridDimY st)
        /\ (setupInput st nw nh = Some s ->
            imageScaleX s = float_of_size_t (nw / imageDimX st)
            /\ imageScaleY s = float_of_size_t (nh / imageDimY st)
            /\ cellWidth s = nw / gridDimX st
            /\ cellHeight s = nh / gridDimY st)
        /\ (setupGrid st gw gh = Some s ->
            imageScaleX s = float_of_size_t (inputDimX st / imageDimX st)
            /\ imageScaleY s = float_of_size_t (inputDimY st / imageDimY st)
            /\ cellWidth s = inputDimX st / gw
            /\ cellHeight s = inputDimY st / gh)).
Proof.
  split; [apply run_orders_new|].
  split; [|split; [intros; apply call_twice|]].
  - intros st o1 o2 s1 s2 Ho1 Ho2 H1 H2.
    rewrite (run_order_final _ _ _ _ _ _ _ _ _ Ho1 H1).
    rewrite (run_order_final _ _ _ _ _ _ _ _ _ Ho2 H2).
    repeat split.
  - intros st s Hready.
    destruct st as [a1 a2 a3 a4 a5 a6 a7 a8 a9 a10 a11 [|] [|] [|]];
      try discriminate.
    split; [|split]; intros Hcall; unfold_setters; split_zero_tests Hcall;
      try discriminate; injection Hcall as <-; repeat split.
Qed.

Lemma setters_any_order_witness :
  run [SetupGrid 40 30; SetupImage 1280 960; SetupInput 640 480] CNMS_new
  = run [SetupInput 640 480; SetupImage 1280 960; SetupGrid 40 30] CNMS_new
  /\ (s ← run [SetupGrid 40 30; SetupImage 1280 960; SetupInput 640 480] CNMS_new;
      Some (cellWidth s, cellHeight s)) = Some (16, 16).
Proof.
  destruct (run [SetupGrid 40 30; SetupImage 1280 960; SetupInput 640 480] CNMS_new)
    as [s1|] eqn:H1; [|discriminate].
  destruct (run [SetupInput 640 480; SetupImage 1280 960; SetupGrid 40 30] CNMS_new)
    as [s2|] eqn:H2; [|discriminate].
  destruct (proj1 (proj2 (setters_any_order 1280 960 640 480 40 30))
              CNMS_new _ _ s1 s2
              ltac:(unfold orders;
                    repeat first [apply list_elem_of_here
                                 | apply list_elem_of_further])
              ltac:(unfold orders;
                    repeat first [apply list_elem_of_here
                                 | apply list_elem_of_further])
              H1 H2)
    as (-> & _ & _ & Hcw & Hch).
  split; [reflexivity|]. cbn. rewrite Hcw, Hch. reflexivity.
Defined.

Lemma N_div_floor a b : b <> 0 -> a / b * b <= a < (a / b + 1) * b.
Proof.
  intros Hb.
  pose proof (N.Div0.div_mod a b) as Ha. pose proof (N.mod_lt a b Hb) as Hr.
  revert Ha Hr. generalize (a / b) (a mod b). intros q r -> Hr.
  rewrite (N.mul_comm q b), N.mul_add_distr_r, (N.mul_comm q b). lia.
Qed.

(** C3 (as the code has it). After a setter call that leaves the
    suppressor ready, the image and grid dimensions are not zero, the
    cell width and height are the integer quotients (rounded down) of the
    network input width and height by the grid width and height, and
    where an image dimension divides the network input dimension the
    image scale is that quotient. *)
Theorem scales_after_setup (k : call) (st s : ClusteredNonMaximumSuppression) :
  doCall k st = Some s ->
  allReady s = true ->
  (imageDimX s <> 0 /\ imageDimY s <> 0 /\ gridDimX s <> 0 /\ gridDimY s <> 0)
  /\ (cellWidth s * gridDimX s <= inputDimX s < (cellWidth s + 1) * gridDimX s)
  /\ (cellHeight s * gridDimY s <= inputDimY s < (cellHeight s + 1) * gridDimY s)
  /\ (forall q, inputDimX s = q * imageDimX s -> imageScaleX s = float_of_size_t q)
  /\ (forall q, inputDimY s = q * imageDimY s -> imageScaleY s = float_of_size_t q).
Proof.
  intros Hcall Hready.
  destruct (call_ready_scales k st s Hcall Hready)
    as ((Hix & Hiy & Hgx & Hgy) & Hsx & Hsy & Hcw & Hch).
  split; [now repeat split|].
  rewrite Hcw, Hch, Hsx, Hsy.
  split; [now apply N_div_floor|]. split; [now apply N_div_floor|].
  split; intros q ->; now rewrite N.div_mul.
Qed.

Lemma scales_after_setup_witness :
  exists s,
    setupImage (withFlags unitGrid22 false true true) 1 2 = Some s
    /\ cellWidth s = 1 /\ cellHeight s = 1
    /\ imageScaleX s = float_of_size_t 2 /\ imageScaleY s = float_of_size_t 1.
Proof.
  eexists. split; [reflexivity|].
  destruct (scales_after_setup (SetupImage 1 2)
              (withFlags unitGrid22 false true true) _ eq_refl eq_refl)
    as (_ & Hcw & Hch & Hsx & Hsy).
  split; [reflexivity|]. split; [reflexivity|].
  split; [exact (Hsx 2 eq_refl)|exact (Hsy 1 eq_refl)].
Defined.

(** C3, refuted as stated: the divisions are integer divisions. With a
    1 by 1 network input and a 2 by 2 image both image scales are zero,
    not one half, and with a 3 by 3 network input and a 2 by 2 grid the
    cell width and height are 1. *)
Lemma scale_is_integer_quotient :
  (s ← run [SetupImage 2 2; SetupInput 1 1; SetupGrid 1 1] CNMS_new;
   Some (imageScaleX s, imageScaleY s)) = Some (fzero, fzero)
  /\ exactQuotient 1 2 = f0_5
  /\ fzero <> f0_5
  /\ (s ← run [SetupImage 3 3; SetupInput 3 3; SetupGrid 2 2] CNMS_new;
      Some (cellWidth s, cellHeight s)) = Some (1, 1).
Proof.
  repeat split; try (vm_compute; reflexivity). discriminate.
Qed.

(** ** The cells and their candidates *)


Lemma rows_length (w a k : nat) :
  length (flat_map (fun y => map (fun x => (y, x)) (seq 0 w)) (seq a k))
  = (k * w)%nat.
Proof.
  revert a; induction k as [|k IH]; intros a; [reflexivity|].
  cbn [seq flat_map]. rewrite length_app, length_map, length_seq, IH. lia.
Qed.


Lemma cells_length st :
  length (cells st) = (N.to_nat (gridDimY st) * N.to_nat (gridDimX st))%nat.
Proof. apply rows_length. Qed.

Lemma cluster_lookup st coverage bboxes thr nbClasses c :
  (c < N.to_nat nbClasses)%nat ->
  cluster st coverage bboxes thr nbClasses !! c
  = Some (accumulate (candidates st coverage bboxes thr c)).
Proof.
  intros Hc. rewrite cluster_classes.
  change (map ?f ?l) with (f <$> l).
  now rewrite list_lookup_fmap, lookup_seq_lt.
Qed.




(** ** Labels and order of the accumulated rectangles *)

Lemma unionRect_label acc rect : label (unionRect acc rect) = label acc.
Proof. reflexivity. Qed.

(** A call of [mergeRect] leaves the labels in place, and adds the label
    of the candidate at the end when nothing overlapped it. *)
Lemma mergeRect_labels rects rect :
  map label (mergeRect rects rect)
  = map label rects
    ++ (if existsb (fun a => rectOverlap a rect) rects then [] else [label rect]).
Proof.
  induction rects as [|r1 rest IH]; [reflexivity|].
  rewrite mergeRect_cons; cbn [existsb].
  destruct (rectOverlap r1 rect); cbn.
  - now rewrite app_nil_r.
  - now rewrite IH.
Qed.

Lemma mergeRect_length rects rect :
  (length rects <= length (mergeRect rects rect) <= S (length rects))%nat.
Proof.
  pose proof (f_equal length (mergeRect_labels rects rect)) as H.
  rewrite length_app, !length_map in H.
  destruct (existsb _ rects); cbn in H; lia.
Qed.

Lemma mergeRect_lookup_label (rects : list float6) rect i a :
  rects !! i = Some a ->
  exists a', mergeRect rects rect !! i = Some a'
             /\ f6_v a' = f6_v a /\ f6_u a' = f6_u a.
Proof.
  intros Hi.
  assert (map label (mergeRect rects rect) !! i = Some (label a)) as H.
  { rewrite mergeRect_labels, lookup_app_l
      by (rewrite length_map; now apply lookup_lt_Some in Hi).
    change (map ?f ?l) with (f <$> l).
    now rewrite list_lookup_fmap, Hi. }
  change (map ?f ?l) with (f <$> l) in H.
  rewrite list_lookup_fmap in H.
  destruct (mergeRect rects rect !! i) as [a'|]; [|discriminate].
  exists a'. injection H as Hv Hu. auto.
Qed.

Lemma foldl_mergeRect_labels cands acc :
  map label (foldl mergeRect acc cands)
  = map label acc ++ map label (creators acc cands).
Proof.
  revert acc; induction cands as [|r rest IH]; intros acc; cbn.
  - now rewrite app_nil_r.
  - rewrite IH, mergeRect_labels.
    destruct (existsb _ acc); cbn.
    + now rewrite app_nil_r.
    + now rewrite <- app_assoc.
Qed.

Lemma accumulate_labels cands :
  map label (accumulate cands) = map label (creators [] cands).
Proof. apply foldl_mergeRect_labels. Qed.

Lemma creators_sublist acc cands : creators acc cands `sublist_of` cands.
Proof.
  revert acc; induction cands as [|r rest IH]; intros acc; cbn.
  - constructor.
  - destruct (existsb _ acc).
    + apply sublist_cons, IH.
    + apply sublist_skip, IH.
Qed.

Lemma accumulate_length cands :
  (length (accumulate cands) <= length cands)%nat.
Proof.
  pose proof (f_equal length (accumulate_labels cands)) as H.
  rewrite !length_map in H. rewrite H.
  apply sublist_length, creators_sublist.
Qed.

Lemma candidates_length st coverage bboxes thr c :
  (length (candidates st coverage bboxes thr c) <= length (cells st))%nat.
Proof. unfold candidates. rewrite length_map. apply filter_length_le. Qed.

Lemma candidates_class st coverage bboxes thr c r :
  r ∈ candidates st coverage bboxes thr c -> f6_u r = float_of_nat c.
Proof.
  unfold candidates. change (map ?f ?l) with (f <$> l).
  intros (cell & -> & _)%list_elem_of_fmap. reflexivity.
Qed.

Lemma accumulate_class st coverage bboxes thr c r :
  r ∈ accumulate (candidates st coverage bboxes thr c) -> f6_u r = float_of_nat c.
Proof.
  intros Hr.
  assert (label r ∈ map label (accumulate (candidates st coverage bboxes thr c)))
    as Hl by (change (map ?f ?l) with (f <$> l); now apply list_elem_of_fmap_2).
  rewrite accumulate_labels in Hl.
  change (map ?f ?l) with (f <$> l) in Hl.
  apply list_elem_of_fmap in Hl as (r' & Heq & Hr').
  eapply elem_of_sublist in Hr'; [|apply creators_sublist].
  apply candidates_class in Hr'.
  injection Heq as _ Hu. congruence.
Qed.

(** ** The regions *)

Lemma toRegion_Some r roi :
  toRegion r = Some roi ->
  exists classID x1 y1 x2 y2,
    size_t_of_float (f6_u r) = Some classID
    /\ size_t_of_float (f6_x r) = Some x1
    /\ size_t_of_float (f6_y r) = Some y1
    /\ size_t_of_float (f6_z r) = Some x2
    /\ size_t_of_float (f6_w r) = Some y2
    /\ roi = mkROI (int_of_size_t classID) (f6_v r) x1 y1
                   (sub64 x2 x1) (sub64 y2 y1).
Proof.
  unfold toRegion. intros H.
  destruct (size_t_of_float (f6_u r)) as [cl|]; [|discriminate].
  destruct (size_t_of_float (f6_x r)) as [x1|]; [|discriminate].
  destruct (size_t_of_float (f6_y r)) as [y1|]; [|discriminate].
  destruct (size_t_of_float (f6_z r)) as [x2|]; [|discriminate].
  destruct (size_t_of_float (f6_w r)) as [y2|]; [|discriminate].
  cbn in H. injection H as <-.
  exists cl, x1, y1, x2, y2. repeat split.
Qed.

Lemma toRegion_confidence r roi :
  toRegion r = Some roi -> roi_confidence roi = f6_v r.
Proof.
  intros (cl & x1 & y1 & x2 & y2 & _ & _ & _ & _ & _ & ->)%toRegion_Some.
  reflexivity.
Qed.

Lemma mapM_toRegion_confidence rs out :
  mapM toRegion rs = Some out -> map roi_confidence out = map f6_v rs.
Proof.
  intros H%mapM_Some_1.
  induction H as [|r roi rs out Hr _ IH]; cbn; [reflexivity|].
  now rewrite IH, (toRegion_confidence _ _ Hr).
Qed.

Lemma size_t_of_float_range f n : size_t_of_float f = Some n -> n < SIZE_MAX1.
Proof.
  destruct f as [s|s| |s m e]; cbn; try discriminate.
  - intros [= <-]. reflexivity.
  - destruct (trunc_mag m e =? 0); [intros [= <-]; reflexivity|].
    destruct s; [discriminate|].
    destruct (N.ltb_spec (trunc_mag m e) SIZE_MAX1); [|discriminate].
    now intros [= <-].
Qed.

Lemma sub64_le a b : b <= a -> a < SIZE_MAX1 -> sub64 a b = a - b.
Proof.
  intros Hle Ha. unfold sub64, wrap64.
  assert (0 < SIZE_MAX1) by reflexivity.
  rewrite (N.mod_small b) by lia.
  replace (a + SIZE_MAX1 - b) with (a - b + 1 * SIZE_MAX1) by lia.
  rewrite N.Div0.mod_add. apply N.mod_small. lia.
Qed.

(** The truncated magnitude is the magnitude rounded down. *)
Lemma trunc_mag_floor m e :
  match e with
  | Zneg p => trunc_mag m e * 2 ^ Npos p <= Npos m
              /\ Npos m < (trunc_mag m e + 1) * 2 ^ Npos p
  | _ => trunc_mag m e = Npos m * 2 ^ Z.to_N e
  end.
Proof.
  destruct e as [|p|p]; cbn [trunc_mag Z.to_N].
  - now rewrite N.mul_1_r.
  - reflexivity.
  - apply N_div_floor, N.pow_nonzero. discriminate.
Qed.

Lemma emitted_confidences st coverage bboxes nbClasses thr :
  map f6_v (emitted st coverage bboxes nbClasses thr)
  = map f6_v (emittedCreators st coverage bboxes nbClasses thr).
Proof.
  unfold emitted, emittedCreators.
  change (map f6_v (take ?k ?l)) with (f6_v <$> take k l).
  rewrite !fmap_take. f_equal.
  change (f6_v <$> ?l) with (map f6_v l).
  rewrite !concat_map, !map_map. f_equal.
  apply map_ext; intros c.
  pose proof (f_equal (map fst)
                (accumulate_labels (candidates st coverage bboxes thr c))) as H.
  now rewrite !map_map in H.
Qed.

(** C6. A call of [mergeRect] leaves the confidence and the class of
    every rectangle already in the vector as they were; the accumulated
    rectangles carry, in order, the confidence and class of the
    candidates that created them; and the regions [execute] returns
    carry the confidences of those creating cells. *)
Theorem merge_keeps_confidence (st : ClusteredNonMaximumSuppression)
  (coverage bboxes : N -> float) (nbClasses : N) (thr : float) :
  (forall (rects : list float6) rect i a,
      rects !! i = Some a ->
      exists a', mergeRect rects rect !! i = Some a'
                 /\ f6_v a' = f6_v a /\ f6_u a' = f6_u a)
  /\ (forall cands,
        map label (accumulate cands) = map label (creators [] cands)
        /\ creators [] cands `sublist_of` cands)
  /\ (forall out,
        execute st coverage bboxes nbClasses thr = Some out ->
        map roi_confidence out
        = map f6_v (emittedCreators st coverage bboxes nbClasses thr)).
Proof.
  split; [apply mergeRect_lookup_label|].
  split; [intros cands; split;
          [apply accumulate_labels|apply creators_sublist]|].
  intros out Hout. rewrite execute_emitted in Hout.
  rewrite (mapM_toRegion_confidence _ _ Hout).
  apply emitted_confidences.
Qed.

Lemma merge_keeps_confidence_witness :
  execute unitGrid22 topRowCoverage topRowBboxes 1 f0_1
  = Some [mkROI 0 f0_5 0 0 1 0]
  /\ map roi_confidence [mkROI 0 f0_5 0 0 1 0] = [f0_5].
Proof.
  assert (execute unitGrid22 topRowCoverage topRowBboxes 1 f0_1
          = Some [mkROI 0 f0_5 0 0 1 0]) as Hout by (vm_compute; reflexivity).
  split; [exact Hout|].
  rewrite (proj2 (proj2 (merge_keeps_confidence unitGrid22 topRowCoverage
                           topRowBboxes 1 f0_1)) _ Hout).
  vm_compute. reflexivity.
Defined.

(** C7. The rectangles are kept as floats while they are accumulated:
    [execute] converts the accumulated rectangles, and an edge of a
    merged rectangle is an edge of one of the two rectangles merged. A
    region is made by converting the four edges to [size_t], which
    discards the fraction, and its width and height are the converted
    right minus the converted left and the converted bottom minus the
    converted top, in [size_t] arithmetic. *)
Theorem regions_truncated (st : ClusteredNonMaximumSuppression)
  (coverage bboxes : N -> float) (nbClasses : N) (thr : float) :
  execute st coverage bboxes nbClasses thr
  = mapM toRegion (emitted st coverage bboxes nbClasses thr)
  /\ (forall acc rect,
        (f6_x (expandRect acc rect) = f6_x rect
         \/ f6_x (expandRect acc rect) = f6_x acc)
        /\ (f6_y (expandRect acc rect) = f6_y rect
            \/ f6_y (expandRect acc rect) = f6_y acc)
        /\ (f6_z (expandRect acc rect) = f6_z rect
            \/ f6_z (expandRect acc rect) = f6_z acc)
        /\ (f6_w (expandRect acc rect) = f6_w rect
            \/ f6_w (expandRect acc rect) = f6_w acc))
  /\ (forall r roi,
        toRegion r = Some roi ->
        exists x1 y1 x2 y2,
          size_t_of_float (f6_x r) = Some x1
          /\ size_t_of_float (f6_y r) = Some y1
          /\ size_t_of_float (f6_z r) = Some x2
          /\ size_t_of_float (f6_w r) = Some y2
          /\ roi_x roi = x1 /\ roi_y roi = y1
          /\ roi_w roi = sub64 x2 x1 /\ roi_h roi = sub64 y2 y1
          /\ (x1 <= x2 -> roi_w roi = x2 - x1)
          /\ (y1 <= y2 -> roi_h roi = y2 - y1))
  /\ (forall s m e n,
        size_t_of_float (S754_finite s m e) = Some n ->
        n = trunc_mag m e
        /\ match e with
           | Zneg p => n * 2 ^ Npos p <= Npos m < (n + 1) * 2 ^ Npos p
           | _ => n = Npos m * 2 ^ Z.to_N e
           end).
Proof.
  split; [apply execute_emitted|]. split; [|split].
  - intros acc rect. rewrite expandRect_union.
    unfold unionRect, fmin, fmax; cbn.
    destruct (flt (f6_x rect) (f6_x acc)), (flt (f6_y rect) (f6_y acc)),
      (fgt (f6_z rect) (f6_z acc)), (fgt (f6_w rect) (f6_w acc)); auto.
  - intros r roi (cl & x1 & y1 & x2 & y2 & _ & Hx1 & Hy1 & Hx2 & Hy2 & ->)%toRegion_Some.
    exists x1, y1, x2, y2. cbn.
    repeat split; try assumption.
    + intros Hle. apply sub64_le; [assumption|].
      now apply size_t_of_float_range in Hx2.
    + intros Hle. apply sub64_le; [assumption|].
      now apply size_t_of_float_range in Hy2.
  - intros s m e n Hn.
    assert (n = trunc_mag m e) as ->.
    { cbn in Hn. destruct (N.eqb_spec (trunc_mag m e) 0) as [->|_];
        [now injection Hn|].
      destruct s; [discriminate|].
      destruct (trunc_mag m e <? SIZE_MAX1); [now injection Hn|discriminate]. }
    split; [reflexivity|]. apply trunc_mag_floor.
Qed.

Lemma regions_truncated_witness :
  toRegion sampleRect = Some (mkROI 0 f0_9 2 3 8 4)
  /\ roi_w (mkROI 0 f0_9 2 3 8 4) = 10 - 2
  /\ roi_h (mkROI 0 f0_9 2 3 8 4) = 7 - 3.
Proof.
  assert (toRegion sampleRect = Some (mkROI 0 f0_9 2 3 8 4)) as Hr
      by (vm_compute; reflexivity).
  split; [exact Hr|].
  destruct (proj1 (proj2 (proj2 (regions_truncated CNMS_new (buffer [])
                                   (buffer []) 0 fzero))) _ _ Hr)
    as (x1 & y1 & x2 & y2 & Hx1 & Hy1 & Hx2 & Hy2 & _ & _ & _ & _ & Hw & Hh).
  vm_compute in Hx1, Hy1, Hx2, Hy2.
  injection Hx1 as <-. injection Hy1 as <-.
  injection Hx2 as <-. injection Hy2 as <-.
  split; [apply Hw|apply Hh]; discriminate.
Defined.

(** ** The number of regions *)

Lemma concat_length_bound {A} (f : nat -> list A) (B : nat) l :
  (forall c, length (f c) <= B)%nat ->
  (length (concat (map f l)) <= length l * B)%nat.
Proof.
  intros Hf; induction l as [|c l IH]; cbn; [lia|].
  rewrite length_app. specialize (Hf c). lia.
Qed.

Lemma mul64_le a b : mul64 a b <= a * b.
Proof. unfold mul64, wrap64. apply N.Div0.mod_le. Qed.

(** C8. [execute] returns at most [gridSize * nbClasses] regions, and at
    most as many as there are grid cells times classes: the bound of the
    second loop nest is [gridSize * nbClasses], a call of [mergeRect]
    adds at most one rectangle, and so a class never holds more
    rectangles than it had candidates, of which there is at most one
    for each cell. *)
Theorem execute_count_bound (st : ClusteredNonMaximumSuppression)
  (coverage bboxes : N -> float) (nbClasses : N) (thr : float)
  (out : list RTClassifiedRegionOfInterest) :
  execute st coverage bboxes nbClasses thr = Some out ->
  N.of_nat (length out) <= gridSize st * nbClasses
  /\ (length out
      <= N.to_nat nbClasses
         * (N.to_nat (gridDimY st) * N.to_nat (gridDimX st)))%nat
  /\ (forall c,
        length (accumulate (candidates st coverage bboxes thr c))
        <= length (candidates st coverage bboxes thr c)
        <= N.to_nat (gridDimY st) * N.to_nat (gridDimX st))%nat
  /\ (forall rects rect,
        length (mergeRect rects rect) <= S (length rects))%nat.
Proof.
  intros Hout. rewrite execute_emitted in Hout.
  apply length_mapM in Hout. rewrite <- Hout. unfold emitted.
  rewrite length_take.
  assert (forall c,
             length (accumulate (candidates st coverage bboxes thr c))
             <= length (candidates st coverage bboxes thr c)
             <= N.to_nat (gridDimY st) * N.to_nat (gridDimX st))%nat as Hclass.
  { intros c. split; [apply accumulate_length|].
    rewrite <- cells_length. apply candidates_length. }
  split; [|split; [|split]].
  - pose proof (mul64_le (gridSize st) nbClasses). lia.
  - pose proof (concat_length_bound
                  (fun c => accumulate (candidates st coverage bboxes thr c))
                  (N.to_nat (gridDimY st) * N.to_nat (gridDimX st))
                  (seq 0 (N.to_nat nbClasses))
                  (fun c => Nat.le_trans _ _ _ (proj1 (Hclass c))
                                         (proj2 (Hclass c)))) as H.
    rewrite length_seq in H. lia.
  - exact Hclass.
  - intros rects rect. apply mergeRect_length.
Qed.

Lemma execute_count_bound_witness :
  execute unitGrid22 diagonalCoverage (buffer []) 1 f0_5
  = Some [mkROI 0 f0_9 0 0 0 0; mkROI 0 f0_9 1 1 0 0]
  /\ N.of_nat (length [mkROI 0 f0_9 0 0 0 0; mkROI 0 f0_9 1 1 0 0])
     <= gridSize unitGrid22 * 1.
Proof.
  assert (execute unitGrid22 diagonalCoverage (buffer []) 1 f0_5
          = Some [mkROI 0 f0_9 0 0 0 0; mkROI 0 f0_9 1 1 0 0]) as Hout
      by (vm_compute; reflexivity).
  split; [exact Hout|].
  exact (proj1 (execute_count_bound _ _ _ _ _ _ Hout)).
Defined.

(** ** The order of the regions *)

Lemma accumulate_snoc_labels cands r :
  map label (accumulate (cands ++ [r]))
  = map label (accumulate cands)
    ++ (if existsb (fun a => rectOverlap a r) (accumulate cands)
        then [] else [label r]).
Proof. unfold accumulate. rewrite foldl_snoc. apply mergeRect_labels. Qed.

(** C10. The regions [execute] returns are the conversions, in order, of
    the accumulated rectangles of class 0, then those of class 1, and so
    on (as many as the bound of the second loop nest admits), and the
    rectangles of a class stand in the order in which they were created:
    a further candidate leaves the rectangles created before it in
    place and, if it creates one, that one comes last. *)
Theorem execute_order (st : ClusteredNonMaximumSuppression)
  (coverage bboxes : N -> float) (nbClasses : N) (thr : float) :
  execute st coverage bboxes nbClasses thr
  = mapM toRegion
      (take (N.to_nat (mul64 (gridSize st) nbClasses))
            (concat (map (fun c => accumulate
                                     (candidates st coverage bboxes thr c))
                         (seq 0 (N.to_nat nbClasses)))))
  /\ (forall c r,
        r ∈ accumulate (candidates st coverage bboxes thr c) ->
        f6_u r = float_of_nat c)
  /\ (forall cands r,
        map label (accumulate (cands ++ [r]))
        = map label (accumulate cands)
          ++ (if existsb (fun a => rectOverlap a r) (accumulate cands)
              then [] else [label r]))
  /\ (forall c,
        map label (accumulate (candidates st coverage bboxes thr c))
        = map label (creators [] (candidates st coverage bboxes thr c))
        /\ creators [] (candidates st coverage bboxes thr c)
           `sublist_of` candidates st coverage bboxes thr c).
Proof.
  split; [apply execute_emitted|].
  split; [intros c r; apply accumulate_class|].
  split; [apply accumulate_snoc_labels|].
  intros c. split; [apply accumulate_labels|apply creators_sublist].
Qed.

Lemma execute_order_witness :
  f6_u (make_float6 (float_of_Z 1) (float_of_Z 1) (float_of_Z 1) (float_of_Z 1)
                    f0_9 fzero) = float_of_nat 0.
Proof.
  refine (proj1 (proj2 (execute_order unitGrid22 diagonalCoverage (buffer []) 1
                          f0_5)) 0%nat _ _).
  vm_compute. apply list_elem_of_further, list_elem_of_here.
Defined.

(** ** The preprocessor *)

(** C9. [swapIO] exchanges the two cache pointers of the preprocessor
    and touches no cache object: the memory holding the caches is the
    same afterwards, the cache that was the output is now the input and
    the other way round, and two calls restore the assignment. The two
    caches of a new preprocessor are distinct objects with equal
    contents, and [swapIO] does change which is which. *)
Theorem swapIO_involution (CUDASizedMemCache : Type)
  (emptyCache : CUDASizedMemCache) (w : world CUDASizedMemCache) :
  heap (swapIO w) = heap w
  /\ inputCache (this (swapIO w)) = outputCache (this w)
  /\ outputCache (this (swapIO w)) = inputCache (this w)
  /\ swapIO (swapIO w) = w
  /\ (forall h,
        let w0 := CUDAImagePreprocessor_new CUDASizedMemCache emptyCache h in
        heap w0 !! inputCache (this w0) = Some emptyCache
        /\ heap w0 !! outputCache (this w0) = Some emptyCache
        /\ inputCache (this w0) <> outputCache (this w0)
        /\ this (swapIO w0) <> this w0).
Proof.
  split; [reflexivity|]. split; [reflexivity|]. split; [reflexivity|].
  split; [now destruct w as [h [i o]]|].
  intros h w0. subst w0. unfold CUDAImagePreprocessor_new, newCache. cbn.
  set (i := fresh (dom h)).
  set (o := fresh (dom (<[i:=emptyCache]> h))).
  assert (i <> o) as Hio.
  { intros Heq. apply (is_fresh (dom (<[i:=emptyCache]> h))).
    fold o. rewrite <- Heq. rewrite dom_insert_L. set_solver. }
  split; [|split; [|split]].
  - rewrite lookup_insert_ne by congruence. apply lookup_insert_eq.
  - apply lookup_insert_eq.
  - exact Hio.
  - intros [= Heq _]. congruence.
Qed.

Lemma swapIO_involution_witness :
  swapIO (swapIO (mkWorld ({[ 1%positive := 640%nat ]} ∪ {[ 2%positive := 480%nat ]})
                          (mkPreprocessor 1%positive 2%positive)))
  = mkWorld ({[ 1%positive := 640%nat ]} ∪ {[ 2%positive := 480%nat ]})
            (mkPreprocessor 1%positive 2%positive).
Proof.
  exact (proj1 (proj2 (proj2 (proj2 (swapIO_involution nat 0%nat _))))).
Defined.

(** * Further properties *)

(** ** The order of floats *)

Ltac split_compares :=
  repeat match goal with
    | H : context [Z.compare ?x ?y] |- _ => destruct (Z.compare_spec x y)
    | |- context [Z.compare ?x ?y] => destruct (Z.compare_spec x y)
    | H : context [Pos.compare ?x ?y] |- _ => destruct (Pos.compare_spec x y)
    | |- context [Pos.compare ?x ?y] => destruct (Pos.compare_spec x y)
    end.

Lemma flt_irrefl a : flt a a = false.
Proof.
  destruct a as [s|s| |s m e]; try (destruct s; reflexivity); try reflexivity.
  unfold flt, SFltb, SFcompare.
  change (Pos.compare_cont Eq m m) with (Pos.compare m m).
  rewrite Z.compare_refl, Pos.compare_refl. now destruct s.
Qed.

Lemma flt_trans a b c : flt a b = true -> flt b c = true -> flt a c = true.
Proof.
  unfold flt, SFltb, SFcompare.
  destruct a as [sa|sa| |sa ma ea], b as [sb|sb| |sb mb eb],
    c as [sc|sc| |sc mc ec]; try discriminate;
    try destruct sa; try destruct sb; try destruct sc;
    try discriminate; try reflexivity.
  all: change (Pos.compare_cont Eq ?x ?y) with (Pos.compare x y).
  all: intros H1 H2; split_compares; subst; cbn in *;
    try discriminate; try reflexivity; try lia.
Qed.

Lemma flt_asym a b : flt a b = true -> flt b a = false.
Proof.
  intros Hab. destruct (flt b a) eqn:Hba; [|reflexivity].
  pose proof (flt_trans _ _ _ Hab Hba) as H. now rewrite flt_irrefl in H.
Qed.

Lemma flt_nan_r a : flt a S754_nan = false.
Proof. now destruct a. Qed.

Lemma flt_nan_l a : flt S754_nan a = false.
Proof. reflexivity. Qed.

Lemma fgt_flt a b : fgt a b = flt b a.
Proof. reflexivity. Qed.

Lemma flt_fmin_l a b : flt a (fmin a b) = false.
Proof.
  unfold fmin. destruct (flt a b) eqn:Hab; [apply flt_irrefl|assumption].
Qed.

Lemma flt_fmin_r a b : flt b (fmin a b) = false.
Proof.
  unfold fmin. destruct (flt a b) eqn:Hab; [now apply flt_asym|apply flt_irrefl].
Qed.

Lemma flt_fmin_mono a b c : flt c b = false -> flt c (fmin a b) = false.
Proof.
  unfold fmin. intros Hcb. destruct (flt a b) eqn:Hab; [|assumption].
  destruct (flt c a) eqn:Hca; [|reflexivity].
  now rewrite (flt_trans _ _ _ Hca Hab) in Hcb.
Qed.

Lemma fgt_fmax_l a b : fgt a (fmax a b) = false.
Proof.
  unfold fmax. rewrite !fgt_flt.
  destruct (flt b a) eqn:Hab; [apply flt_irrefl|assumption].
Qed.

Lemma fgt_fmax_r a b : fgt b (fmax a b) = false.
Proof.
  unfold fmax. rewrite !fgt_flt.
  destruct (flt b a) eqn:Hab; [now apply flt_asym|apply flt_irrefl].
Qed.

Lemma fgt_fmax_mono a b c : fgt c b = false -> fgt c (fmax a b) = false.
Proof.
  unfold fmax. rewrite !fgt_flt. intros Hcb.
  destruct (flt b a) eqn:Hab; [|assumption].
  destruct (flt a c) eqn:Hca; [|reflexivity].
  now rewrite (flt_trans _ _ _ Hab Hca) in Hcb.
Qed.

(** ** What merging keeps *)

Lemma contains_refl r : contains r r = true.
Proof.
  unfold contains. now rewrite !fgt_flt, !flt_irrefl.
Qed.

Lemma contains_union_candidate acc rect :
  contains (unionRect acc rect) rect = true.
Proof.
  unfold contains, unionRect; cbn.
  now rewrite !flt_fmin_l, !fgt_fmax_l.
Qed.

Lemma contains_union_acc acc rect : contains (unionRect acc rect) acc = true.
Proof.
  unfold contains, unionRect; cbn.
  now rewrite !flt_fmin_r, !fgt_fmax_r.
Qed.

Lemma contains_union_mono acc rect r :
  contains acc r = true -> contains (unionRect acc rect) r = true.
Proof.
  unfold contains, unionRect; cbn.
  intros H. repeat (apply andb_prop in H as [H ?]).
  repeat match goal with
         | H : negb _ = true |- _ => apply negb_true_iff in H
         end.
  rewrite !flt_fmin_mono, !fgt_fmax_mono by assumption. reflexivity.
Qed.

Lemma mergeRect_keeps_cover rects rect r :
  (exists a, a ∈ rects /\ contains a r = true) ->
  exists a', a' ∈ mergeRect rects rect /\ contains a' r = true.
Proof.
  induction rects as [|r1 rest IH]; intros (a & Ha & Hc).
  - inversion Ha.
  - rewrite mergeRect_cons. destruct (rectOverlap r1 rect).
    + apply elem_of_cons in Ha as [-> | Ha].
      * exists (unionRect r1 rect). split; [apply list_elem_of_here|].
        now apply contains_union_mono.
      * exists a. split; [now apply list_elem_of_further|assumption].
    + apply elem_of_cons in Ha as [-> | Ha].
      * exists r1. split; [apply list_elem_of_here|assumption].
      * destruct IH as (a' & Ha' & Hc'); [now exists a|].
        exists a'. split; [now apply list_elem_of_further|assumption].
Qed.

Lemma mergeRect_covers_candidate rects rect :
  exists a', a' ∈ mergeRect rects rect /\ contains a' rect = true.
Proof.
  induction rects as [|r1 rest IH].
  - exists rect. split; [apply list_elem_of_here|apply contains_refl].
  - rewrite mergeRect_cons. destruct (rectOverlap r1 rect).
    + exists (unionRect r1 rect). split; [apply list_elem_of_here|].
      apply contains_union_candidate.
    + destruct IH as (a' & Ha' & Hc').
      exists a'. split; [now apply list_elem_of_further|assumption].
Qed.

Lemma foldl_mergeRect_covers cands acc r :
  (r ∈ cands \/ exists a, a ∈ acc /\ contains a r = true) ->
  exists a', a' ∈ foldl mergeRect acc cands /\ contains a' r = true.
Proof.
  revert acc; induction cands as [|c rest IH]; intros acc [Hr | Hacc]; cbn.
  - inversion Hr.
  - exact Hacc.
  - apply IH. apply elem_of_cons in Hr as [-> | Hr]; [right|now left].
    apply mergeRect_covers_candidate.
  - apply IH. right. now apply mergeRect_keeps_cover.
Qed.

(** X1. No candidate is lost: every candidate merged into the vector of
    a class lies within one of the accumulated rectangles at the end,
    none of its four edges sticking out by the comparisons [mergeRect]
    makes. In particular each cell above the threshold is covered by a
    rectangle of its class. *)
Theorem accumulate_covers (cands : list float6) (r : float6) :
  r ∈ cands ->
  exists a, a ∈ accumulate cands /\ contains a r = true.
Proof. intros Hr. apply foldl_mergeRect_covers. now left. Qed.

Lemma accumulate_covers_witness :
  exists a,
    a ∈ accumulate [rectZ 5 5 7 7; rectZ 0 0 1 1; rectZ 4 6 6 8]
    /\ contains a (rectZ 4 6 6 8) = true.
Proof.
  apply (accumulate_covers [rectZ 5 5 7 7; rectZ 0 0 1 1; rectZ 4 6 6 8]).
  apply list_elem_of_further, list_elem_of_further, list_elem_of_here.
Defined.

(** X2. A rectangle in the vector never shrinks: after a call of
    [mergeRect] the rectangle at each index contains the rectangle that
    was there before. *)
Theorem mergeRect_grows (rects : list float6) (rect : float6) (i : nat)
  (a : float6) :
  rects !! i = Some a ->
  exists a', mergeRect rects rect !! i = Some a' /\ contains a' a = true.
Proof.
  revert i; induction rects as [|r1 rest IH]; intros i Hi; [discriminate|].
  rewrite mergeRect_cons. destruct (rectOverlap r1 rect).
  - destruct i as [|i]; cbn in *.
    + injection Hi as <-. eexists. split; [reflexivity|].
      apply contains_union_acc.
    + exists a. split; [assumption|apply contains_refl].
  - destruct i as [|i]; cbn in *.
    + injection Hi as <-. exists r1. split; [reflexivity|apply contains_refl].
    + now apply IH.
Qed.

Lemma mergeRect_grows_witness :
  exists a',
    mergeRect [rectZ 0 0 1 1; rectZ 5 5 7 7] (rectZ 4 6 6 8) !! 1%nat = Some a'
    /\ contains a' (rectZ 5 5 7 7) = true.
Proof.
  exact (mergeRect_grows [rectZ 0 0 1 1; rectZ 5 5 7 7] (rectZ 4 6 6 8) 1
           (rectZ 5 5 7 7) eq_refl).
Defined.

(** ** Candidates that do not overlap *)

Lemma accumulate_snoc cands r :
  accumulate (cands ++ [r]) = mergeRect (accumulate cands) r.
Proof. unfold accumulate. apply foldl_snoc. Qed.

Lemma accumulate_no_overlap (cands : list float6) :
  (forall i j a r, (i < j)%nat -> cands !! i = Some a -> cands !! j = Some r ->
                   rectOverlap a r = false) ->
  accumulate cands = cands.
Proof.
  induction cands as [|r cands IH] using rev_ind; intros Hdis; [reflexivity|].
  rewrite accumulate_snoc, IH.
  - apply mergeRect_miss. intros a (i & Hi)%list_elem_of_lookup.
    apply (Hdis i (length cands) a r).
    + now apply lookup_lt_Some in Hi.
    + now rewrite lookup_app_l by (now apply lookup_lt_Some in Hi).
    + now rewrite lookup_app_r, Nat.sub_diag by lia.
  - intros i j a r' Hij Hi Hj.
    apply (Hdis i j a r' Hij).
    + now rewrite lookup_app_l by (now apply lookup_lt_Some in Hi).
    + now rewrite lookup_app_l by (now apply lookup_lt_Some in Hj).
Qed.

(** X3. When no candidate of a class overlaps a candidate that comes
    before it, nothing is merged: the vector of the class holds exactly
    the candidates, one rectangle for each cell above the threshold, in
    the order of the cells. *)
Theorem cluster_no_overlap (st : ClusteredNonMaximumSuppression)
  (coverage bboxes : N -> float) (n : N) (thr : float) (c : nat) :
  (c < N.to_nat n)%nat ->
  (forall i j a r, (i < j)%nat ->
                   candidates st coverage bboxes thr c !! i = Some a ->
                   candidates st coverage bboxes thr c !! j = Some r ->
                   rectOverlap a r = false) ->
  cluster st coverage bboxes thr n !! c
  = Some (map (cellRect st coverage bboxes c)
              (List.filter (aboveThreshold st coverage thr c) (cells st))).
Proof.
  intros Hc Hdis. rewrite cluster_lookup by assumption.
  now rewrite accumulate_no_overlap.
Qed.

Lemma cluster_no_overlap_witness :
  cluster unitGrid22 diagonalCoverage (buffer []) f0_5 1 !! 0%nat
  = Some (map (cellRect unitGrid22 diagonalCoverage (buffer []) 0)
              [(0, 0); (1, 1)]%nat).
Proof.
  apply (cluster_no_overlap unitGrid22 diagonalCoverage (buffer []) 1 f0_5 0).
  - vm_compute. lia.
  - intros i j a r Hij Hi Hj.
    destruct i as [|[|i]], j as [|[|j]]; try lia; try discriminate.
    injection Hi as <-. injection Hj as <-. vm_compute. reflexivity.
Defined.

(** ** NaN edges *)

Lemma rectOverlap_nan_candidate a r : nanEdges r -> rectOverlap a r = true.
Proof.
  intros (Hx & Hy & Hz & Hw). unfold rectOverlap.
  rewrite !fgt_flt, Hx, Hy, Hz, Hw.
  now rewrite !flt_nan_l, !flt_nan_r.
Qed.

Lemma rectOverlap_nan_acc a r : nanEdges a -> rectOverlap a r = true.
Proof.
  intros (Hx & Hy & Hz & Hw). unfold rectOverlap.
  rewrite !fgt_flt, Hx, Hy, Hz, Hw.
  now rewrite !flt_nan_l, !flt_nan_r.
Qed.

Lemma unionRect_nan_candidate a r : nanEdges r -> unionRect a r = a.
Proof.
  intros (Hx & Hy & Hz & Hw). destruct a as [ax ay az aw av au].
  unfold unionRect, fmin, fmax. cbn [f6_x f6_y f6_z f6_w f6_v f6_u].
  rewrite !fgt_flt, Hx, Hy, Hz, Hw.
  now rewrite !flt_nan_l, !flt_nan_r.
Qed.

Lemma unionRect_nan_acc a r : nanEdges a -> unionRect a r = a.
Proof.
  intros (Hx & Hy & Hz & Hw). destruct a as [ax ay az aw av au].
  cbn in Hx, Hy, Hz, Hw. subst.
  unfold unionRect, fmin, fmax. cbn [f6_x f6_y f6_z f6_w f6_v f6_u].
  rewrite !fgt_flt. now rewrite !flt_nan_l, !flt_nan_r.
Qed.

Lemma foldl_mergeRect_nan_head a rest cands :
  nanEdges a -> foldl mergeRect (a :: rest) cands = a :: rest.
Proof.
  intros Ha. induction cands as [|r cands IH]; cbn; [reflexivity|].
  rewrite mergeRect_cons, rectOverlap_nan_acc, unionRect_nan_acc by assumption.
  exact IH.
Qed.

(** X4. NaN edges pass the overlap test against everything. A candidate
    whose four edges are NaN is merged into the first rectangle of a
    vector that is not empty and leaves the vector as it was; and when
    the first candidate of a class has four NaN edges, every later
    candidate is merged into it without changing it, so that the class
    ends with that one rectangle. *)
Theorem mergeRect_nan (r : float6) :
  nanEdges r ->
  (forall a rest, mergeRect (a :: rest) r = a :: rest)
  /\ (forall cands, accumulate (r :: cands) = [r]).
Proof.
  intros Hr. split.
  - intros a rest.
    now rewrite mergeRect_cons, rectOverlap_nan_candidate,
      unionRect_nan_candidate.
  - intros cands. unfold accumulate; cbn.
    now apply foldl_mergeRect_nan_head.
Qed.

Lemma mergeRect_nan_witness :
  accumulate [make_float6 S754_nan S754_nan S754_nan S754_nan f0_9 fzero;
              rectZ 0 0 1 1; rectZ 5 5 7 7]
  = [make_float6 S754_nan S754_nan S754_nan S754_nan f0_9 fzero].
Proof.
  assert (nanEdges (make_float6 S754_nan S754_nan S754_nan S754_nan f0_9 fzero))
    as Hnan by (repeat split).
  apply (proj2 (mergeRect_nan _ Hnan)).
Defined.

(** ** The first rectangle of a class *)

(** X5. A class ends with a rectangle exactly when it has a candidate,
    and its first rectangle carries the confidence and the class of its
    first candidate: of the first cell above the threshold in row-major
    order. *)
Theorem accumulate_first (cands : list float6) :
  (accumulate cands = [] <-> cands = [])
  /\ (forall r rest,
        cands = r :: rest ->
        exists a tl, accumulate cands = a :: tl
                     /\ f6_v a = f6_v r /\ f6_u a = f6_u r).
Proof.
  assert (forall r rest,
             exists a tl, accumulate (r :: rest) = a :: tl
                          /\ f6_v a = f6_v r /\ f6_u a = f6_u r) as Hhead.
  { intros r rest.
    pose proof (accumulate_labels (r :: rest)) as H.
    change (creators [] (r :: rest)) with (r :: creators [r] rest) in H.
    destruct (accumulate (r :: rest)) as [|a tl]; [discriminate|].
    cbn [map label] in H. injection H as Hv Hu _. now exists a, tl. }
  split.
  - split; [|now intros ->].
    destruct cands as [|r rest]; [reflexivity|].
    destruct (Hhead r rest) as (a & tl & Heq & _). now rewrite Heq.
  - intros r rest ->. apply Hhead.
Qed.

Lemma accumulate_first_witness :
  exists a tl,
    accumulate [rectZ 5 5 7 7; rectZ 4 6 6 8] = a :: tl
    /\ f6_v a = f0_9 /\ f6_u a = fzero.
Proof.
  exact (proj2 (accumulate_first [rectZ 5 5 7 7; rectZ 4 6 6 8]) _ _ eq_refl).
Defined.

(** ** The threshold *)

Lemma filter_sublist_impl {A} (P Q : A -> bool) l :
  (forall a, P a = true -> Q a = true) ->
  List.filter P l `sublist_of` List.filter Q l.
Proof.
  intros HPQ; induction l as [|a l IH]; cbn; [constructor|].
  destruct (P a) eqn:HP.
  - rewrite (HPQ a HP). now apply sublist_skip.
  - destruct (Q a); [now apply sublist_cons|assumption].
Qed.

(** X6. Raising the threshold adds no candidate: the candidates of a
    class for a greater threshold are among its candidates for a lesser
    one, in the same order. *)
Theorem candidates_threshold (st : ClusteredNonMaximumSuppression)
  (coverage bboxes : N -> float) (thr thr' : float) (c : nat) :
  flt thr thr' = true ->
  candidates st coverage bboxes thr' c
  `sublist_of` candidates st coverage bboxes thr c.
Proof.
  intros Hthr. unfold candidates.
  change (map ?f ?l) with (f <$> l). apply fmap_sublist.
  apply filter_sublist_impl. intros cell. unfold aboveThreshold.
  rewrite !fgt_flt. now apply flt_trans.
Qed.

Lemma candidates_threshold_witness :
  candidates unitGrid22 topRowCoverage topRowBboxes f0_5 0
  `sublist_of` candidates unitGrid22 topRowCoverage topRowBboxes f0_1 0.
Proof.
  apply candidates_threshold. vm_compute. reflexivity.
Defined.

(** ** The layout of the tensors *)

Lemma mixed_radix_inj (b q r q' r' : N) :
  r < b -> r' < b -> q * b + r = q' * b + r' -> q = q' /\ r = r'.
Proof.
  intros Hr Hr' Heq.
  assert (q = q') as -> by nia. split; [reflexivity|lia].
Qed.

Lemma gridOffset_exact st (k y x : nat) :
  gridSize st = gridDimX st * gridDimY st ->
  N.of_nat y < gridDimY st -> N.of_nat x < gridDimX st ->
  (N.of_nat k + 1) * gridSize st <= SIZE_MAX1 ->
  gridOffset st k y x
  = N.of_nat k * gridSize st + N.of_nat y * gridDimX st + N.of_nat x
  /\ N.of_nat y * gridDimX st + N.of_nat x < gridSize st.
Proof.
  intros Hgs Hy Hx Hmax.
  assert (N.of_nat y * gridDimX st + N.of_nat x < gridSize st) as Hcell
      by (rewrite Hgs; nia).
  split; [|assumption].
  unfold gridOffset, add64, mul64, wrap64.
  rewrite (N.mod_small (N.of_nat k * gridSize st)) by nia.
  rewrite (N.mod_small (N.of_nat y * gridDimX st)) by nia.
  rewrite (N.mod_small (N.of_nat k * gridSize st + N.of_nat y * gridDimX st))
    by nia.
  apply N.mod_small. nia.
Qed.

(** X7. The offsets at which [execute] reads follow the row-major layout
    [tensor[k][y][x]]: as long as the grid size is the product of the
    grid dimensions and the tensor up to plane [k] fits the address
    range, the offset of cell (x, y) in plane [k] is
    [k * gridSize + y * gridDimX + x], it lies in plane [k], and two
    reads of distinct cells or planes are at distinct offsets. *)
Theorem gridOffset_layout (st : ClusteredNonMaximumSuppression)
  (k y x k' y' x' : nat) :
  gridSize st = gridDimX st * gridDimY st ->
  N.of_nat y < gridDimY st -> N.of_nat x < gridDimX st ->
  (N.of_nat k + 1) * gridSize st <= SIZE_MAX1 ->
  N.of_nat y' < gridDimY st -> N.of_nat x' < gridDimX st ->
  (N.of_nat k' + 1) * gridSize st <= SIZE_MAX1 ->
  gridOffset st k y x
  = N.of_nat k * gridSize st + N.of_nat y * gridDimX st + N.of_nat x
  /\ N.of_nat k * gridSize st <= gridOffset st k y x
     < (N.of_nat k + 1) * gridSize st
  /\ (gridOffset st k y x = gridOffset st k' y' x' ->
      k = k' /\ y = y' /\ x = x').
Proof.
  intros Hgs Hy Hx Hk Hy' Hx' Hk'.
  destruct (gridOffset_exact st k y x Hgs Hy Hx Hk) as [Heq Hcell].
  destruct (gridOffset_exact st k' y' x' Hgs Hy' Hx' Hk') as [Heq' Hcell'].
  split; [assumption|]. split; [rewrite Heq; lia|].
  rewrite Heq, Heq', <- !N.add_assoc. intros Hsame.
  apply mixed_radix_inj in Hsame as [Hkk Hcells]; try assumption.
  apply mixed_radix_inj in Hcells as [Hyy Hxx]; try assumption.
  lia.
Qed.

Lemma gridOffset_layout_witness :
  gridOffset unitGrid22 2 1 0 = 2 * 4 + 1 * 2 + 0
  /\ (gridOffset unitGrid22 2 1 0 = gridOffset unitGrid22 2 0 1 -> False).
Proof.
  destruct (gridOffset_layout unitGrid22 2 1 0 2 0 1) as (Heq & _ & Hinj);
    try reflexivity; try (vm_compute; discriminate).
  split; [exact Heq|].
  intros Hsame. destruct (Hinj Hsame) as (_ & Hy & _). discriminate.
Defined.

(** ** The detector *)

Lemma DIGITSDetector_new_returns (X : External) (CHANNELS_BGR : N)
  (e0 : CaffeRTEngine X) (prototextPath modelPath cachePath : string)
  (nbChannels width height stride n : N) (dataType : DataType)
  (maxNetworkSize : N) (det : DIGITSDetector X) :
  DIGITSDetector_new X CHANNELS_BGR e0 prototextPath modelPath cachePath
    nbChannels width height stride n dataType maxNetworkSize = Returns det ->
  nbChannels = CHANNELS_BGR /\ stride <> 0
  /\ networkInputs (engine det)
     = networkInputs e0
       ++ [mkNetworkInput "data"
             (mkDims 3 [int_of_size_t nbChannels; int_of_size_t height;
                        int_of_size_t width]) 4]
  /\ networkOutputs (engine det)
     = networkOutputs e0
       ++ [mkNetworkOutput "coverage"
             (mkDims 3 [int_of_size_t n; int_of_size_t (height / stride);
                        int_of_size_t (width / stride)]) 4;
           mkNetworkOutput "bboxes"
             (mkDims 3 [4%Z; int_of_size_t (height / stride);
                        int_of_size_t (width / stride)]) 4]
  /\ modelWidth det = width /\ modelHeight det = height
  /\ modelDepth det = nbChannels /\ nbClasses det = n
  /\ suppressor det
     = {| imageDimX := 0; imageDimY := 0;
          imageScaleX := fzero; imageScaleY := fzero;
          inputDimX := width; inputDimY := height;
          gridDimX := width / stride; gridDimY := height / stride;
          cellWidth := 0; cellHeight := 0;
          gridSize := mul64 (width / stride) (height / stride);
          imageReady := false; inputReady := true; gridReady := true |}.
Proof.
  unfold DIGITSDetector_new, div64.
  destruct (N.eqb_spec nbChannels CHANNELS_BGR) as [Hch|Hch]; cbn [negb];
    [|discriminate].
  destruct (N.eqb_spec stride 0) as [Hs|Hs]; [discriminate|].
  cbn [defined mbind outcome_bind].
  destruct (loadEngine X prototextPath modelPath cachePath dataType
              maxNetworkSize _) as [e| |] eqn:Hload; try discriminate.
  cbn. intros [= <-]. cbn.
  assert (networkInputs e = networkInputs e0 ++ [mkNetworkInput "data"
             (mkDims 3 [int_of_size_t nbChannels; int_of_size_t height;
                        int_of_size_t width]) 4]
          /\ networkOutputs e = (networkOutputs e0 ++ [mkNetworkOutput "coverage"
             (mkDims 3 [int_of_size_t n; int_of_size_t (height / stride);
                        int_of_size_t (width / stride)]) 4])
                ++ [mkNetworkOutput "bboxes"
             (mkDims 3 [4%Z; int_of_size_t (height / stride);
                        int_of_size_t (width / stride)]) 4]) as [Hin Hout].
  { unfold loadEngine in Hload.
    destruct (infile_good X cachePath).
    - destruct (loadCache X cachePath _) as [rt| |]; try discriminate.
      cbn in Hload. now injection Hload as <-.
    - destruct (loadModel X _ _ _ _ _ _ _ _) as [r| |]; try discriminate.
      cbn in Hload.
      destruct (saveCache X cachePath _) as [rt| |]; try discriminate.
      cbn in Hload. now injection Hload as <-. }
  rewrite Hin, Hout, <- app_assoc. repeat split; assumption.
Qed.

(** X8. The constructor of the detector. A channel count other than
    [CHANNELS_BGR] is refused with [invalid_argument] whatever the other
    arguments are; with the right channel count a stride of 0 is a
    division by zero, before the engine is touched. A detector that has
    been constructed has registered, after what the engine held, the
    input "data" and the outputs "coverage" and "bboxes", both over the
    grid of [height / stride] by [width / stride] cells, and its
    suppressor knows the input size and that grid but no image size. *)
Theorem DIGITSDetector_new_contract (X : External) (CHANNELS_BGR : N)
  (e0 : CaffeRTEngine X) (prototextPath modelPath cachePath : string)
  (nbChannels width height stride n : N) (dataType : DataType)
  (maxNetworkSize : N) :
  (nbChannels <> CHANNELS_BGR ->
   DIGITSDetector_new X CHANNELS_BGR e0 prototextPath modelPath cachePath
     nbChannels width height stride n dataType maxNetworkSize
   = Throws (invalid_argument "Only BGR DetectNets are supported currently"))
  /\ (nbChannels = CHANNELS_BGR -> stride = 0 ->
      DIGITSDetector_new X CHANNELS_BGR e0 prototextPath modelPath cachePath
        nbChannels width height stride n dataType maxNetworkSize
      = Undefined)
  /\ (forall det,
        DIGITSDetector_new X CHANNELS_BGR e0 prototextPath modelPath cachePath
          nbChannels width height stride n dataType maxNetworkSize
        = Returns det ->
        nbChannels = CHANNELS_BGR /\ stride <> 0
        /\ networkInputs (engine det)
           = networkInputs e0
             ++ [mkNetworkInput "data"
                   (mkDims 3 [int_of_size_t nbChannels; int_of_size_t height;
                              int_of_size_t width]) 4]
        /\ networkOutputs (engine det)
           = networkOutputs e0
             ++ [mkNetworkOutput "coverage"
                   (mkDims 3 [int_of_size_t n; int_of_size_t (height / stride);
                              int_of_size_t (width / stride)]) 4;
                 mkNetworkOutput "bboxes"
                   (mkDims 3 [4%Z; int_of_size_t (height / stride);
                              int_of_size_t (width / stride)]) 4]
        /\ inputDimX (suppressor det) = width
        /\ inputDimY (suppressor det) = height
        /\ gridDimX (suppressor det) = width / stride
        /\ gridDimY (suppressor det) = height / stride
        /\ gridSize (suppressor det) = mul64 (width / stride) (height / stride)
        /\ imageReady (suppressor det) = false
        /\ inputReady (suppressor det) = true
        /\ gridReady (suppressor det) = true).
Proof.
  split; [|split].
  - intros Hch. unfold DIGITSDetector_new.
    now destruct (N.eqb_spec nbChannels CHANNELS_BGR).
  - intros Hch ->. unfold DIGITSDetector_new.
    destruct (N.eqb_spec nbChannels CHANNELS_BGR); [|contradiction].
    reflexivity.
  - intros det Hdet.
    destruct (DIGITSDetector_new_returns _ _ _ _ _ _ _ _ _ _ _ _ _ _ Hdet)
      as (Hch & Hs & Hin & Hout & _ & _ & _ & _ & Hsup).
    rewrite Hsup. repeat split; assumption.
Qed.

Lemma DIGITSDetector_new_contract_witness :
  DIGITSDetector_new idleExternal 3 idleEngine "net.prototxt"
    "net.caffemodel" "net.cache" 1 640 480 16 2 kFLOAT 1024
  = Throws (invalid_argument "Only BGR DetectNets are supported currently")
  /\ DIGITSDetector_new idleExternal 3 idleEngine "net.prototxt"
       "net.caffemodel" "net.cache" 3 640 480 0 2 kFLOAT 1024
     = Undefined.
Proof.
  split.
  - apply (proj1 (DIGITSDetector_new_contract idleExternal 3 idleEngine
                    "net.prototxt" "net.caffemodel" "net.cache" 1 640 480 16 2
                    kFLOAT 1024)).
    discriminate.
  - apply (proj1 (proj2 (DIGITSDetector_new_contract idleExternal 3
                           idleEngine "net.prototxt" "net.caffemodel"
                           "net.cache" 3 640 480 0 2 kFLOAT 1024)));
      reflexivity.
Defined.

Lemma div_stride_nonzero (width stride : N) :
  stride <> 0 -> stride <= width -> width / stride <> 0.
Proof.
  intros Hs Hw Hz. apply N.div_small_iff in Hz; [lia|assumption].
Qed.

Lemma detector_setupImage (width height stride : N) :
  let sup := {| imageDimX := 0; imageDimY := 0;
                imageScaleX := fzero; imageScaleY := fzero;
                inputDimX := width; inputDimY := height;
                gridDimX := width / stride; gridDimY := height / stride;
                cellWidth := 0; cellHeight := 0;
                gridSize := mul64 (width / stride) (height / stride);
                imageReady := false; inputReady := true; gridReady := true |} in
  stride <> 0 ->
  (stride <= width -> stride <= height ->
   setupImage sup width height
   = Some {| imageDimX := width; imageDimY := height;
             imageScaleX := float_of_size_t 1;
             imageScaleY := float_of_size_t 1;
             inputDimX := width; inputDimY := height;
             gridDimX := width / stride; gridDimY := height / stride;
             cellWidth := width / (width / stride);
             cellHeight := height / (height / stride);
             gridSize := mul64 (width / stride) (height / stride);
             imageReady := true; inputReady := true; gridReady := true |})
  /\ (width < stride \/ height < stride -> setupImage sup width height = None).
Proof.
  intros sup Hs. subst sup.
  unfold setupImage, allReady, calculateScale, div64; cbn.
  split.
  - intros Hw Hh.
    pose proof (div_stride_nonzero width stride Hs Hw) as Hgx.
    pose proof (div_stride_nonzero height stride Hs Hh) as Hgy.
    destruct (N.eqb_spec width 0); [lia|]. cbn.
    destruct (N.eqb_spec height 0); [lia|]. cbn.
    destruct (N.eqb_spec (width / stride) 0); [contradiction|]. cbn.
    destruct (N.eqb_spec (height / stride) 0); [contradiction|]. cbn.
    now rewrite !N.div_same by assumption.
  - intros Hsmall.
    destruct (N.eqb_spec width 0); [reflexivity|]. cbn.
    destruct (N.eqb_spec height 0); [reflexivity|]. cbn.
    destruct (N.eqb_spec (width / stride) 0) as [|Hgx]; [reflexivity|]. cbn.
    destruct (N.eqb_spec (height / stride) 0) as [|Hgy]; [reflexivity|].
    exfalso. destruct Hsmall as [Hlt | Hlt].
    + apply Hgx. now apply N.div_small.
    + apply Hgy. now apply N.div_small.
Qed.

Lemma cell_at_least_stride (width stride : N) :
  stride <> 0 -> stride <= width ->
  stride <= width / (width / stride)
  /\ width / (width / stride) * (width / stride) <= width.
Proof.
  intros Hs Hw.
  pose proof (div_stride_nonzero width stride Hs Hw) as Hgx.
  split.
  - apply N.div_le_lower_bound; [assumption|].
    rewrite N.mul_comm. apply N.Div0.mul_div_le.
  - apply (N_div_floor width (width / stride) Hgx).
Qed.

(** X9. The geometry of [detect]. For a detector that has been
    constructed with a stride no greater than the width and the height,
    the setter call in [detect] succeeds and leaves both image scales 1
    (the image is taken to have the size of the network input), the grid
    of [width / stride] by [height / stride] cells, and cells at least a
    stride wide and high that together do not exceed the input. With a
    stride greater than the width or the height the grid has no cells
    and [detect] divides by zero once [predict] has returned. *)
Theorem detect_geometry (X : External) (CHANNELS_BGR : N)
  (e0 : CaffeRTEngine X) (prototextPath modelPath cachePath : string)
  (nbChannels width height stride n : N) (dataType : DataType)
  (maxNetworkSize : N) (det : DIGITSDetector X) :
  DIGITSDetector_new X CHANNELS_BGR e0 prototextPath modelPath cachePath
    nbChannels width height stride n dataType maxNetworkSize = Returns det ->
  (stride <= width -> stride <= height ->
   exists s,
     setupImage (suppressor det) (modelWidth det) (modelHeight det) = Some s
     /\ imageScaleX s = float_of_size_t 1
     /\ imageScaleY s = float_of_size_t 1
     /\ gridDimX s = width / stride /\ gridDimY s = height / stride
     /\ stride <= cellWidth s /\ stride <= cellHeight s
     /\ cellWidth s * gridDimX s <= width
     /\ cellHeight s * gridDimY s <= height)
  /\ (width < stride \/ height < stride ->
      forall inputs thr,
        detect X det inputs thr
        = (r ← predict X (runtime (engine det)) inputs; Undefined)).
Proof.
  intros Hdet.
  destruct (DIGITSDetector_new_returns _ _ _ _ _ _ _ _ _ _ _ _ _ _ Hdet)
    as (_ & Hs & _ & _ & Hmw & Hmh & _ & _ & Hsup).
  destruct (detector_setupImage width height stride Hs) as [Hok Hbad].
  rewrite Hmw, Hmh, Hsup. split.
  - intros Hw Hh. eexists. split; [now apply Hok|]. cbn.
    destruct (cell_at_least_stride width stride Hs Hw) as [? ?].
    destruct (cell_at_least_stride height stride Hs Hh) as [? ?].
    repeat split; assumption.
  - intros Hsmall inputs thr. unfold detect.
    rewrite Hmw, Hmh, Hsup, (Hbad Hsmall).
    now destruct (predict X (runtime (engine det)) inputs).
Qed.

Lemma detect_geometry_witness :
  DIGITSDetector_new idleExternal 3 idleEngine "net.prototxt"
    "net.caffemodel" "net.cache" 3 640 480 16 2 kFLOAT 1024
  = Returns sampleDetector
  /\ exists s,
      setupImage (suppressor sampleDetector) (modelWidth sampleDetector)
        (modelHeight sampleDetector) = Some s
      /\ imageScaleX s = float_of_size_t 1
      /\ gridDimX s = 640 / 16.
Proof.
  assert (DIGITSDetector_new idleExternal 3 idleEngine "net.prototxt"
            "net.caffemodel" "net.cache" 3 640 480 16 2 kFLOAT 1024
          = Returns sampleDetector) as Hdet by (vm_compute; reflexivity).
  split; [exact Hdet|].
  destruct (proj1 (detect_geometry _ _ _ _ _ _ _ _ _ _ _ _ _ _ Hdet))
    as (s & Hs & Hsx & _ & Hgx & _); [discriminate|discriminate|].
  exists s. repeat split; assumption.
Defined.

Lemma setupImage_again st a b s :
  setupImage st a b = Some s -> setupImage s a b = Some s.
Proof.
  intros H. pose proof (call_twice (SetupImage a b) st) as Htwice.
  cbn in Htwice. rewrite H in Htwice. cbn in Htwice.
  now destruct (setupImage s a b).
Qed.

(** X10. [detect] can be repeated. A call that returns leaves the
    dimensions, the class count and the registered tensors of the
    detector as they were and its suppressor in a state that the setter
    call of [detect] no longer changes: every later call computes its
    regions from that same suppressor state and the tensors [predict]
    hands it. *)
Theorem detect_repeatable (X : External) (det det' : DIGITSDetector X)
  (inputs : LocatedExecutionMemory X) (thr : float)
  (regions : list RTClassifiedRegionOfInterest) :
  detect X det inputs thr = Returns (det', regions) ->
  (modelWidth det' = modelWidth det /\ modelHeight det' = modelHeight det
   /\ modelDepth det' = modelDepth det /\ nbClasses det' = nbClasses det
   /\ networkInputs (engine det') = networkInputs (engine det)
   /\ networkOutputs (engine det') = networkOutputs (engine det))
  /\ setupImage (suppressor det') (modelWidth det') (modelHeight det')
     = Some (suppressor det')
  /\ (forall inputs2 thr2,
        detect X det' inputs2 thr2
        = (r ← predict X (runtime (engine det')) inputs2;
           regions2 ← defined (execute (suppressor det') (fst (snd r))
                                 (snd (snd r)) (nbClasses det') thr2);
           Returns (mkDetector
                      (mkEngine (networkInputs (engine det'))
                                (networkOutputs (engine det')) (fst r))
                      (modelWidth det') (modelHeight det') (modelDepth det')
                      (nbClasses det') (suppressor det'),
                    regions2))).
Proof.
  unfold detect at 1. intros Hdet.
  destruct (predict X (runtime (engine det)) inputs) as [r| |];
    try discriminate. cbn in Hdet.
  destruct (setupImage (suppressor det) (modelWidth det) (modelHeight det))
    as [s|] eqn:Hs; [|discriminate]. cbn in Hdet.
  destruct (execute s _ _ _ _) as [out|]; [|discriminate]. cbn in Hdet.
  injection Hdet as <- <-. cbn.
  apply setupImage_again in Hs.
  split; [repeat split|]. split; [assumption|].
  intros inputs2 thr2. unfold detect. cbn. now rewrite Hs.
Qed.

Lemma detect_repeatable_witness :
  exists det' regions,
    detect idleExternal sampleDetector tt f0_5 = Returns (det', regions)
    /\ setupImage (suppressor det') (modelWidth det') (modelHeight det')
       = Some (suppressor det').
Proof.
  assert (detect idleExternal sampleDetector tt f0_5
          = Returns (mkDetector (engine sampleDetector) 640 480 3 2 sampleReady,
                     [mkROI 0 f0_9 0 0 0 0; mkROI 0 f0_9 48 0 0 0]))
    as Hdet by (vm_compute; reflexivity).
  do 2 eexists. split; [exact Hdet|].
  exact (proj1 (proj2 (detect_repeatable _ _ _ _ _ _ Hdet))).
Defined.

Lemma int_of_size_t_small n : n < 2 ^ 31 -> int_of_size_t n = Z.of_N n.
Proof.
  intros Hn. unfold int_of_size_t.
  rewrite N.mod_small by (eapply N.lt_trans; [exact Hn|reflexivity]).
  destruct (Z.ltb_spec (Z.of_N n) (2 ^ 31)); [reflexivity|].
  change (2 ^ 31)%Z with (Z.of_N (2 ^ 31)) in *. lia.
Qed.

(** X11. [execute] reads inside the tensors the constructor registered.
    For a detector constructed with fewer than 2^31 classes and a grid
    of fewer than 2^31 columns and rows, once the setter call of
    [detect] has succeeded, every offset at which [execute] reads the
    coverage buffer, for a class below the class count and a cell of the
    grid, is below the number of elements of the registered "coverage"
    tensor, and every offset at which it reads one of the four planes of
    the bboxes buffer is below the number of elements of the registered
    "bboxes" tensor. *)
Theorem detect_reads_in_bounds (X : External) (CHANNELS_BGR : N)
  (e0 : CaffeRTEngine X) (prototextPath modelPath cachePath : string)
  (nbChannels width height stride n : N) (dataType : DataType)
  (maxNetworkSize : N) (det : DIGITSDetector X)
  (s : ClusteredNonMaximumSuppression) :
  DIGITSDetector_new X CHANNELS_BGR e0 prototextPath modelPath cachePath
    nbChannels width height stride n dataType maxNetworkSize = Returns det ->
  setupImage (suppressor det) (modelWidth det) (modelHeight det) = Some s ->
  n < 2 ^ 31 -> width / stride < 2 ^ 31 -> height / stride < 2 ^ 31 ->
  exists cov bb,
    networkOutputs (engine det) = networkOutputs e0 ++ [cov; bb]
    /\ forall c y x : nat,
        N.of_nat y < gridDimY s -> N.of_nat x < gridDimX s ->
        (N.of_nat c < nbClasses det ->
         (Z.of_N (gridOffset s c y x) < volume (output_dims cov))%Z)
        /\ (N.of_nat c < 4 ->
            (Z.of_N (gridOffset s c y x) < volume (output_dims bb))%Z).
Proof.
  intros Hdet Hsetup Hn Hgx Hgy.
  destruct (DIGITSDetector_new_returns _ _ _ _ _ _ _ _ _ _ _ _ _ _ Hdet)
    as (_ & Hs & _ & Hout & Hmw & Hmh & _ & Hcl & Hsup).
  do 2 eexists. split; [exact Hout|].
  rewrite Hmw, Hmh, Hsup in Hsetup.
  assert (gridDimX s = width / stride /\ gridDimY s = height / stride
          /\ gridSize s = mul64 (width / stride) (height / stride))
    as (Hsx & Hsy & Hsz).
  { revert Hsetup. unfold setupImage, allReady, calculateScale, div64; cbn.
    repeat (match goal with
            | |- context [N.eqb ?a 0] => destruct (N.eqb_spec a 0); cbn
            end); try discriminate.
    intros [= <-]. repeat split. }
  assert (2 ^ 31 * 2 ^ 31 < SIZE_MAX1) as Hpow by reflexivity.
  assert (gridSize s = gridDimX s * gridDimY s) as Hgs.
  { rewrite Hsz, Hsx, Hsy. unfold mul64, wrap64. apply N.mod_small. nia. }
  intros c y x Hy Hx. rewrite Hcl.
  unfold volume; cbn [d output_dims foldr].
  rewrite !int_of_size_t_small by assumption.
  assert (gridOffset s c y x < (N.of_nat c + 1) * gridSize s) as Hoff.
  { destruct (N.le_gt_cases ((N.of_nat c + 1) * gridSize s) SIZE_MAX1)
      as [Hfit|Hwrap].
    - destruct (gridOffset_exact s c y x Hgs Hy Hx Hfit) as [Heq Hcell]. lia.
    - eapply N.lt_trans; [|exact Hwrap].
      unfold gridOffset, add64, wrap64. now apply N.mod_lt. }
  rewrite Hgs, Hsx, Hsy in Hoff.
  split; intros Hc; nia.
Qed.

Lemma detect_reads_in_bounds_witness :
  exists cov bb,
    networkOutputs (engine sampleDetector) = [cov; bb]
    /\ (Z.of_N (gridOffset sampleReady 1 29 39) < volume (output_dims cov))%Z.
Proof.
  assert (DIGITSDetector_new idleExternal 3 idleEngine "net.prototxt"
            "net.caffemodel" "net.cache" 3 640 480 16 2 kFLOAT 1024
          = Returns sampleDetector) as Hdet by (vm_compute; reflexivity).
  assert (setupImage (suppressor sampleDetector) (modelWidth sampleDetector)
            (modelHeight sampleDetector) = Some sampleReady)
    as Hs by (vm_compute; reflexivity).
  destruct (detect_reads_in_bounds _ _ _ _ _ _ _ _ _ _ _ _ _ _ _ Hdet Hs)
    as (cov & bb & Hout & Hreads); [reflexivity|reflexivity|reflexivity|].
  exists cov, bb. split; [exact Hout|].
  apply (proj1 (Hreads 1 29 39 eq_refl eq_refl)%nat).
  reflexivity.
Defined.

(** ** The life of a preprocessor *)

Lemma ownsCaches_new (C : Cuda) h dev :
  ownsCaches C h
    (CUDAImagePreprocessor_new (Cache C) (newCUDASizedMemCache C) h, dev).
Proof.
  unfold ownsCaches, CUDAImagePreprocessor_new, newCache; cbn.
  set (i := fresh (dom h)).
  set (o := fresh (dom (<[i:=newCUDASizedMemCache C]> h))).
  assert (h !! i = None) as Hi by (apply not_elem_of_dom, is_fresh).
  assert (<[i:=newCUDASizedMemCache C]> h !! o = None) as Ho
      by (apply not_elem_of_dom, is_fresh).
  assert (i <> o) as Hio.
  { intros Heq. rewrite <- Heq in Ho. now rewrite lookup_insert_eq in Ho. }
  rewrite lookup_insert_ne in Ho by assumption.
  repeat split; try assumption.
  - rewrite lookup_insert_ne by congruence. rewrite lookup_insert_eq. eauto.
  - rewrite lookup_insert_eq. eauto.
  - intros p Hpi Hpo. now rewrite !lookup_insert_ne by congruence.
Qed.

Lemma ownsCaches_swapIO (C : Cuda) h (m : machine C) :
  ownsCaches C h m -> ownsCaches C h (swapIO (fst m), snd m).
Proof.
  unfold ownsCaches; cbn. intros (Hne & Hi & Ho & Hhi & Hho & Hrest).
  repeat split; try assumption; try congruence.
  intros p Hpo Hpi. now apply Hrest.
Qed.

Lemma inputFromHost_changes (C : Cuda) (m m' : machine C) host size r :
  inputFromHost C m host size = Some (m', r) ->
  this (fst m') = this (fst m)
  /\ is_Some (heap (fst m') !! inputCache (this (fst m)))
  /\ (forall p, p <> inputCache (this (fst m)) ->
                heap (fst m') !! p = heap (fst m) !! p).
Proof.
  unfold inputFromHost.
  destruct (heap (fst m) !! inputCache (this (fst m))) as [cache|];
    [|discriminate]. cbn.
  destruct (getCUDAAlloc C cache (snd m) size) as [[cache' dev1] [p0|e]].
  - destruct (cudaMemcpy C dev1 p0 host size) as [dev2 err].
    destruct (negb (err =? 0)%Z); intros [= <- <-]; cbn;
      (split; [reflexivity|]; split;
       [rewrite lookup_insert_eq; eauto
       |intros p Hp; now rewrite lookup_insert_ne by congruence]).
  - intros [= <- <-]; cbn.
    split; [reflexivity|]. split; [rewrite lookup_insert_eq; eauto|].
    intros p Hp. now rewrite lookup_insert_ne by congruence.
Qed.

Lemma inputFromHost_defined (C : Cuda) (m : machine C) host size :
  is_Some (heap (fst m) !! inputCache (this (fst m))) ->
  is_Some (inputFromHost C m host size).
Proof.
  intros [cache Hcache]. unfold inputFromHost. rewrite Hcache; cbn.
  destruct (getCUDAAlloc C cache (snd m) size) as [[cache' dev1] [p0|e]];
    [|eauto].
  destruct (cudaMemcpy C dev1 p0 host size) as [dev2 err].
  destruct (negb (err =? 0)%Z); eauto.
Qed.

Lemma ownsCaches_inputFromHost (C : Cuda) h (m m' : machine C) host size r :
  ownsCaches C h m ->
  inputFromHost C m host size = Some (m', r) ->
  ownsCaches C h m'.
Proof.
  intros (Hne & Hi & Ho & Hhi & Hho & Hrest) Hcall.
  destruct (inputFromHost_changes C m m' host size r Hcall)
    as (Hthis & Hin & Hframe).
  unfold ownsCaches. rewrite Hthis.
  repeat split; try assumption.
  - rewrite Hframe by congruence. assumption.
  - intros p Hpi Hpo. rewrite Hframe by assumption. now apply Hrest.
Qed.

Lemma runPreprocessor_owns (C : Cuda) h ks (m : machine C) :
  ownsCaches C h m ->
  exists m', runPreprocessor C ks m = Some m' /\ ownsCaches C h m'.
Proof.
  revert m; induction ks as [|k ks IH]; intros m Hm; cbn.
  - now exists m.
  - destruct k as [|host size].
    + apply IH. now apply ownsCaches_swapIO.
    + destruct (inputFromHost_defined C m host size) as [[m1 r] Hcall];
        [apply Hm|].
      rewrite Hcall; cbn. apply IH.
      eapply ownsCaches_inputFromHost; eassumption.
Qed.

Lemma delete_owned (C : Cuda) h (m : machine C) :
  ownsCaches C h m ->
  exists dev', CUDAImagePreprocessor_delete C m = Some (h, dev').
Proof.
  intros (Hne & [ci Hi] & [co Ho] & Hhi & Hho & Hrest).
  unfold CUDAImagePreprocessor_delete, deleteCache.
  rewrite Hi; cbn. rewrite lookup_delete_ne, Ho by assumption; cbn.
  eexists. do 2 f_equal. apply map_eq. intros p.
  destruct (decide (p = outputCache (this (fst m)))) as [->|Hpo];
    [now rewrite lookup_delete_eq|].
  rewrite lookup_delete_ne by congruence.
  destruct (decide (p = inputCache (this (fst m)))) as [->|Hpi];
    [now rewrite lookup_delete_eq|].
  rewrite lookup_delete_ne by congruence. now apply Hrest.
Qed.

(** X12. The life of a preprocessor. From construction, any sequence of
    [swapIO] and [inputFromHost] calls (also ones that throw) is
    defined; it leaves the two cache pointers distinct and every other
    object in memory as it was; and the destructor then deletes two
    distinct caches, none of them twice, and leaves the memory exactly
    as it was before the constructor. *)
Theorem preprocessor_lifecycle (C : Cuda) (h : gmap ptr (Cache C))
  (dev : Device C) (ks : list (preprocessorCall C)) :
  exists m,
    runPreprocessor C ks
      (CUDAImagePreprocessor_new (Cache C) (newCUDASizedMemCache C) h, dev)
    = Some m
    /\ inputCache (this (fst m)) <> outputCache (this (fst m))
    /\ (forall p, p ∈ dom h -> heap (fst m) !! p = h !! p)
    /\ exists dev', CUDAImagePreprocessor_delete C m = Some (h, dev').
Proof.
  destruct (runPreprocessor_owns C h ks _ (ownsCaches_new C h dev))
    as (m & Hrun & Hm).
  exists m. split; [assumption|].
  pose proof Hm as (Hne & _ & _ & Hhi & Hho & Hrest).
  split; [assumption|]. split; [|now apply (delete_owned C h)].
  intros p [c Hp]%elem_of_dom. apply Hrest; congruence.
Qed.

(** X13. [inputFromHost] stages through the cache in the input role and
    through no other: whether it returns or throws, it leaves the two
    cache pointers and every cache object but the one [inputCache]
    points to as they were, and it returns normally only when
    [cudaMemcpy] reported 0. Called after [swapIO], it works on the
    cache that was the output before the swap and leaves the former
    input cache alone. *)
Theorem inputFromHost_frame (C : Cuda) (m m' : machine C)
  (hostMemory : HostPtr C) (size : N) (r : completion unit) :
  (inputFromHost C m hostMemory size = Some (m', r) ->
   this (fst m') = this (fst m)
   /\ (forall p, p <> inputCache (this (fst m)) ->
                 heap (fst m') !! p = heap (fst m) !! p)
   /\ (r = Normal tt ->
       exists cache cache' dev1 deviceMemory,
         heap (fst m) !! inputCache (this (fst m)) = Some cache
         /\ getCUDAAlloc C cache (snd m) size
            = (cache', dev1, Normal deviceMemory)
         /\ snd (cudaMemcpy C dev1 deviceMemory hostMemory size) = 0%Z))
  /\ (inputFromHost C (swapIO (fst m), snd m) hostMemory size = Some (m', r) ->
      inputCache (this (fst m')) = outputCache (this (fst m))
      /\ outputCache (this (fst m')) = inputCache (this (fst m))
      /\ (forall p, p <> outputCache (this (fst m)) ->
                    heap (fst m') !! p = heap (fst m) !! p)).
Proof.
  split.
  - intros Hcall.
    destruct (inputFromHost_changes C m m' hostMemory size r Hcall)
      as (Hthis & _ & Hframe).
    split; [assumption|]. split; [assumption|].
    intros ->. unfold inputFromHost in Hcall.
    destruct (heap (fst m) !! inputCache (this (fst m))) as [cache|];
      [|discriminate]. cbn in Hcall.
    destruct (getCUDAAlloc C cache (snd m) size)
      as [[cache' dev1] [p0|e]] eqn:Halloc; [|discriminate].
    destruct (cudaMemcpy C dev1 p0 hostMemory size) as [dev2 err] eqn:Hcopy.
    destruct (Z.eqb_spec err 0) as [->|]; [|discriminate].
    exists cache, cache', dev1, p0. rewrite Hcopy. now repeat split.
  - intros Hcall.
    destruct (inputFromHost_changes C _ m' hostMemory size r Hcall)
      as (Hthis & _ & Hframe).
    cbn in Hthis, Hframe. rewrite Hthis. cbn.
    repeat split. assumption.
Qed.

Lemma inputFromHost_frame_witness :
  inputFromHost idleCuda (swapIO (fst sampleMachine), tt) 7 640
  = Some ((mkWorld (<[2%positive := 640]> (heap (fst sampleMachine)))
                   (mkPreprocessor 2%positive 1%positive), tt), Normal tt)
  /\ (<[2%positive := 640]> (heap (fst sampleMachine)) : gmap ptr N)
     !! 1%positive = heap (fst sampleMachine) !! 1%positive.
Proof.
  assert (inputFromHost idleCuda (swapIO (fst sampleMachine), tt) 7 640
          = Some ((mkWorld (<[2%positive := 640]> (heap (fst sampleMachine)))
                           (mkPreprocessor 2%positive 1%positive), tt),
                  Normal tt)) as Hcall by (vm_compute; reflexivity).
  split; [exact Hcall|].
  destruct (proj2 (inputFromHost_frame idleCuda sampleMachine _ 7 640 _) Hcall)
    as (_ & _ & Hframe).
  apply (Hframe 1%positive). discriminate.
Defined.

(** ** Readiness *)

Lemma doCall_flags k st st' :
  doCall k st = Some st' ->
  imageReady st' = imageReady st || isSetupImage k
  /\ inputReady st' = inputReady st || isSetupInput k
  /\ gridReady st' = gridReady st || isSetupGrid k
  /\ (allReady st' = false -> scaleFactors st' = scaleFactors st).
Proof.
  intros Hcall.
  destruct st as [a1 a2 a3 a4 a5 a6 a7 a8 a9 a10 a11 [|] [|] [|]], k.
  all: unfold_setters; split_zero_tests Hcall; try discriminate.
  all: injection Hcall as <-; cbn; repeat split; discriminate.
Qed.

Lemma run_flags ks st st' :
  run ks st = Some st' ->
  imageReady st' = imageReady st || existsb isSetupImage ks
  /\ inputReady st' = inputReady st || existsb isSetupInput ks
  /\ gridReady st' = gridReady st || existsb isSetupGrid ks
  /\ (allReady st' = false -> scaleFactors st' = scaleFactors st).
Proof.
  revert st; induction ks as [|k ks IH]; intros st Hrun; cbn in Hrun.
  - injection Hrun as <-. cbn. rewrite !orb_false_r. now repeat split.
  - destruct (doCall k st) as [st1|] eqn:Hcall; [|discriminate].
    cbn in Hrun.
    destruct (doCall_flags k st st1 Hcall) as (Hi1 & Hn1 & Hg1 & Hs1).
    destruct (IH st1 Hrun) as (Hi & Hn & Hg & Hs).
    cbn [existsb].
    rewrite Hi, Hn, Hg, Hi1, Hn1, Hg1, !orb_assoc.
    repeat split.
    intros Hnot. rewrite Hs by assumption. apply Hs1.
    unfold allReady in *. rewrite Hi, Hn, Hg in Hnot.
    destruct (imageReady st1), (inputReady st1), (gridReady st1);
      try reflexivity; discriminate.
Qed.

(** X14. The readiness flags record which setters have been called:
    after any sequence of setter calls on a new suppressor, a flag is
    set exactly when its setter occurs in the sequence, so that the
    suppressor is ready exactly when all three occur; and as long as it
    is not ready, all four scale factors are still the zeros the
    constructor gave them. *)
Theorem readiness_tracks_calls (ks : list call)
  (st : ClusteredNonMaximumSuppression) :
  run ks CNMS_new = Some st ->
  imageReady st = existsb isSetupImage ks
  /\ inputReady st = existsb isSetupInput ks
  /\ gridReady st = existsb isSetupGrid ks
  /\ (allReady st = false ->
      imageScaleX st = fzero /\ imageScaleY st = fzero
      /\ cellWidth st = 0 /\ cellHeight st = 0).
Proof.
  intros Hrun. destruct (run_flags ks CNMS_new st Hrun) as (Hi & Hn & Hg & Hs).
  repeat split; try assumption;
    specialize (Hs H); unfold scaleFactors in Hs; cbn in Hs; congruence.
Qed.

Lemma readiness_tracks_calls_witness :
  exists st,
    run [SetupGrid 40 30; SetupInput 640 480; SetupGrid 20 15] CNMS_new = Some st
    /\ imageReady st = false
    /\ cellWidth st = 0.
Proof.
  eexists. split; [reflexivity|].
  destruct (readiness_tracks_calls
              [SetupGrid 40 30; SetupInput 640 480; SetupGrid 20 15] _ eq_refl)
    as (Hi & _ & _ & Hs).
  split; [exact Hi|]. apply Hs. reflexivity.
Defined.

(** ** The bound of the second loop nest *)

(** X15. The bound [gridSize * nbClasses] of the second loop nest drops
    nothing: when the grid size is the product of the grid dimensions,
    as [setupGrid] leaves it, and [gridSize * nbClasses] fits a
    [size_t], [execute] converts every accumulated rectangle of every
    class. *)
Theorem execute_emits_all (st : ClusteredNonMaximumSuppression)
  (coverage bboxes : N -> float) (n : N) (thr : float) :
  gridSize st = gridDimX st * gridDimY st ->
  gridSize st * n < SIZE_MAX1 ->
  execute st coverage bboxes n thr
  = mapM toRegion
      (concat (map (fun c => accumulate (candidates st coverage bboxes thr c))
                   (seq 0 (N.to_nat n)))).
Proof.
  intros Hgs Hfit. rewrite execute_emitted. unfold emitted.
  rewrite take_ge; [reflexivity|].
  pose proof (concat_length_bound
                (fun c => accumulate (candidates st coverage bboxes thr c))
                (N.to_nat (gridDimY st) * N.to_nat (gridDimX st))
                (seq 0 (N.to_nat n))) as Hlen.
  rewrite length_seq in Hlen.
  etransitivity; [apply Hlen|].
  - intros c. etransitivity; [apply accumulate_length|].
    rewrite <- cells_length. apply candidates_length.
  - unfold mul64, wrap64. rewrite N.mod_small by assumption.
    rewrite Hgs. lia.
Qed.

Lemma execute_emits_all_witness :
  execute unitGrid22 diagonalCoverage (buffer []) 1 f0_5
  = mapM toRegion
      (concat (map (fun c => accumulate
                               (candidates unitGrid22 diagonalCoverage
                                  (buffer []) f0_5 c))
                   (seq 0 (N.to_nat 1)))).
Proof.
  apply execute_emits_all; reflexivity.
Defined.
